(** * aiostream.aiter_utils: utilities for asynchronous iteration

    A shallow embedding of [aiostream/aiter_utils.py] and the properties of
    its asynchronous iterator context.

    The consumer task and the producer task ([_task_target]) of an
    [AsyncIteratorContext] are cooperative coroutines that meet on two
    rendezvous channels.  The embedding threads one [context] value through
    both coroutines.  The producer has to run while the consumer is parked
    on the item channel or is joining the task group, and it is run, up to
    its next suspension, at those points.  After it has handed over an
    error (line 141) it has work left (the close attempt) that the consumer
    does not wait for: the producer then stays suspended and goes on when
    the scheduler resumes it, at the latest at the join of [__aexit__]. *)

From stdpp Require Import base option list strings pretty.
From Stdlib Require Import ZArith Lia.

Set Default Proof Using "Type".

(** ** Exceptions and results *)

(** The exception instances the module raises or lets through.  The first
    group derives from [Exception]; the second derives from [BaseException]
    only. *)
Inductive exn : Type :=
| StopAsyncIteration
| StopIteration
| TypeError (msg : string)
| RuntimeError (msg : string)
| AssertionError
| ClosedResourceError
| UserException (name : string)
| GeneratorExit
| CancelledError
| KeyboardInterrupt
| SystemExit
| UserBaseException (name : string).

#[global] Instance exn_eq_dec : EqDecision exn.
Proof. solve_decision. Defined.

(** [isinstance(e, Exception)] *)
Definition is_Exception (e : exn) : bool :=
  match e with
  | StopAsyncIteration | StopIteration | TypeError _ | RuntimeError _
  | AssertionError | ClosedResourceError | UserException _ => true
  | GeneratorExit | CancelledError | KeyboardInterrupt | SystemExit
  | UserBaseException _ => false
  end.

(** Outcome of running a piece of code: it returns, it raises, or it is
    parked on an await that nothing completes. *)
Inductive result (A : Type) : Type :=
| Return (a : A)
| Raise (e : exn)
| Blocked.
Arguments Return {A} a.
Arguments Raise {A} e.
Arguments Blocked {A}.

(** Python values that travel through the iterators. *)
Inductive value : Type :=
| VNone
| VInt (z : Z)
| VStr (s : string)
| VAwaitable (a : awaitable)
(** An awaitable object: awaiting it suspends the caller [suspensions]
    times and then either resolves to a value or raises.  The iterator of
    an awaitable ends with [StopIteration]: one that raises [StopIteration]
    has resolved, to [None]. *)
with awaitable : Type :=
| Resolves (suspensions : nat) (v : value)
| Fails (suspensions : nat) (e : exn).

(** ** A state and error monad for coroutine bodies *)

Definition M (S A : Type) : Type := S → result A * S.

Definition ret {S A} (a : A) : M S A := λ s, (Return a, s).
Definition raise {S A} (e : exn) : M S A := λ s, (Raise e, s).
Definition blocked {S A} : M S A := λ s, (Blocked, s).
Definition bind {S A B} (m : M S A) (k : A → M S B) : M S B :=
  λ s, match m s with
       | (Return a, s') => k a s'
       | (Raise e, s') => (Raise e, s')
       | (Blocked, s') => (Blocked, s')
       end.
Definition lift {S A} (r : result A) : M S A := λ s, (r, s).
Definition get {S} : M S S := λ s, (Return s, s).
Definition modify {S} (f : S → S) : M S unit := λ s, (Return tt, f s).

Notation "'let*' x := m 'in' k" := (bind m (λ x, k))
  (at level 10, x name, m at level 100, k at level 200).
Notation "m >> k" := (bind m (λ _, k))
  (at level 90, right associativity).

(** [try: body finally: fin].  The [finally] clause runs when control leaves
    [body], by return or by exception; an exception raised by [fin] replaces
    the outcome of [body].  A body parked on an await has not left. *)
Definition try_finally {S A} (body : M S A) (fin : M S unit) : M S A :=
  λ s, match body s with
       | (Blocked, s') => (Blocked, s')
       | (r, s') =>
           match fin s' with
           | (Return _, s'') => (r, s'')
           | (Raise e, s'') => (Raise e, s'')
           | (Blocked, s'') => (Blocked, s'')
           end
       end.

(** [try: body except ...: handler].  [handler e] is [None] when no except
    clause matches [e]. *)
Definition try_except {S A} (body : M S A) (handler : exn → option (M S A))
  : M S A :=
  λ s, match body s with
       | (Raise e, s') =>
           match handler e with
           | Some h => h s'
           | None => (Raise e, s')
           end
       | other => other
       end.

(** [async def].  An exception that leaves the body of a coroutine is
    raised to whoever awaits it, but for [StopIteration], which a coroutine
    cannot raise: the interpreter replaces it by a [RuntimeError]
    (PEP 479). *)
Definition coroutine_raises (e : exn) : exn :=
  match e with
  | StopIteration => RuntimeError "coroutine raised StopIteration"
  | _ => e
  end.

Definition coroutine_result {A} (r : result A) : result A :=
  match r with
  | Raise e => Raise (coroutine_raises e)
  | other => other
  end.

Definition async_def {S A} (body : M S A) : M S A :=
  λ s, let '(r, s') := body s in (coroutine_result r, s').

(** ** The wrapped asynchronous iterator *)

(** What one call of [__anext__], awaited, does: it gives an item, or it
    raises in the caller. *)
Inductive pull : Type :=
| Yield (item : value)
| Throw (e : exn).

(** References into the object store. *)
Abbreviation loc := nat.

(** What calling [__aiter__] on an object gives: the object itself (async
    generators, iterators) or another object of the store; or the call
    raises. *)
Inductive aiter_target : Type :=
| Self
| Other (l : loc)
| AiterRaises (e : exn).

(** An arbitrary object that is not an iterator context.  [aiter_method] is
    [None] when the object has no [__aiter__] attribute; [has_anext] tells
    whether it has an [__anext__] attribute.  [pulls] scripts the successive
    [__anext__] calls; once the script is over the iterator keeps signalling
    exhaustion.  [aclose] is [None] when the object has no [aclose]
    attribute and otherwise tells what calling the hook raises.
    [ag_running] is the value [getattr(obj, 'ag_running', False)] reads.
    [aclose_calls] counts the invocations of the hook. *)
Record aiterator : Type := {
  type_name : string;
  aiter_method : option aiter_target;
  has_anext : bool;
  pulls : list pull;
  aclose : option (option exn);
  ag_running : bool;
  aclose_calls : nat
}.

Definition set_pulls (ps : list pull) (it : aiterator) : aiterator :=
  {| type_name := type_name it; aiter_method := aiter_method it;
     has_anext := has_anext it; pulls := ps;
     aclose := aclose it; ag_running := ag_running it;
     aclose_calls := aclose_calls it |}.

Definition count_aclose (it : aiterator) : aiterator :=
  {| type_name := type_name it; aiter_method := aiter_method it;
     has_anext := has_anext it; pulls := pulls it;
     aclose := aclose it; ag_running := ag_running it;
     aclose_calls := S (aclose_calls it) |}.

(** ** Iterability helpers *)

(** What the helpers observe of an object: the name of its type and
    whether [hasattr(obj, '__aiter__')] and [hasattr(obj, '__anext__')]
    hold. *)
Class PyObject (O : Type) : Type := {
  type_name_of : O → string;
  hasattr_aiter : O → bool;
  hasattr_anext : O → bool
}.

#[global] Instance aiterator_PyObject : PyObject aiterator := {|
  type_name_of := type_name;
  hasattr_aiter := λ it, match aiter_method it with
                         | Some _ => true
                         | None => false
                         end;
  hasattr_anext := has_anext
|}.

Section helpers.
Context {O : Type} `{PyObject O}.

(** [is_async_iterable(obj)] *)
Definition is_async_iterable (obj : O) : bool := hasattr_aiter obj.

(** [assert_async_iterable(obj)] *)
Definition assert_async_iterable (obj : O) : result unit :=
  if negb (is_async_iterable obj)
  then Raise (TypeError ("'" ++ type_name_of obj
                         ++ "' object is not async iterable"))
  else Return tt.

(** [is_async_iterator(obj)] *)
Definition is_async_iterator (obj : O) : bool := hasattr_anext obj.

(** [assert_async_iterator(obj)] *)
Definition assert_async_iterator (obj : O) : result unit :=
  if negb (is_async_iterator obj)
  then Raise (TypeError ("'" ++ type_name_of obj
                         ++ "' object is not an async iterator"))
  else Return tt.
End helpers.

(** [obj.__anext__()] on the wrapped iterator. *)
Definition aiterator_anext : M aiterator value :=
  λ it, match pulls it with
        | [] => (Raise StopAsyncIteration, it)
        | Yield v :: ps => (Return v, set_pulls ps it)
        | Throw e :: ps => (Raise e, set_pulls ps it)
        end.

(** [anext(obj)]: access the anext magic method (of an object that is not
    a context). *)
Definition anext (it : aiterator) : result value * aiterator :=
  match assert_async_iterator it with
  | Return _ => aiterator_anext it
  | Raise e => (Raise e, it)
  | Blocked => (Blocked, it)
  end.

(** Calling the bound [aclose] hook. *)
Definition call_aclose (raises : option exn) : M aiterator unit :=
  λ it, (match raises with None => Return tt | Some e => Raise e end,
         count_aclose it).

(** ** Host concurrency primitives ([compat]) *)

(** Modelled from the spec: the module [compat] (task group, rendezvous
    channels, cancel scope) is not part of the sources.  Section 6 of the
    specification gives its contract: a structured scope that is entered,
    spawns work, is asked to cancel and joins all spawned work on exit;
    one-slot rendezvous channels with send, receive and close; a shielded
    sub-scope into which outer cancellation does not propagate. *)
Inductive task_state : Type :=
| NotSpawned
| Parked                          (* suspended in [receive()] on the sync channel *)
| Delivered                       (* suspended in [send()] of line 141, the error handed over *)
| Finished (raised : option exn). (* [_task_target] returned or raised *)

(** Modelled from the spec: [compat]'s task group: whether the scope was
    entered, whether cancellation was requested, and the spawned task. *)
Record task_group : Type := {
  entered : bool;
  cancel_called : bool;
  task : task_state
}.

(** Modelled from the spec: [compat]'s channel.  Both ends of the item
    channel: the message in flight and whether the sending end was
    closed. *)
Record item_channel : Type := {
  item_slot : option (value * option exn);
  item_sender_closed : bool
}.

(** Modelled from the spec: [compat]'s channel.  Both ends of the sync
    channel: whether a demand token is in flight and whether the sending
    end was closed. *)
Record sync_channel : Type := {
  demand : bool;
  sync_sender_closed : bool
}.

Module compat.
(** Modelled from the spec: [compat.create_task_group()]. *)
Definition create_task_group : task_group :=
  {| entered := false; cancel_called := false; task := NotSpawned |}.

(** Modelled from the spec: [compat.open_channel()], for the items. *)
Definition open_item_channel : item_channel :=
  {| item_slot := None; item_sender_closed := false |}.

(** Modelled from the spec: [compat.open_channel()], for the demand
    tokens. *)
Definition open_sync_channel : sync_channel :=
  {| demand := false; sync_sender_closed := false |}.

(** Modelled from the spec: [compat]'s shielded sub-scope.
    [open_cancel_scope(shield=...)]: the body runs with the shield of the
    new scope. *)
Definition open_cancel_scope {S A} (shield : bool) (body : bool → M S A)
  : M S A := body shield.
End compat.

(** ** The asynchronous iterator context *)

Inductive state : Type :=
| _STANDBY
| _RUNNING
| _FINISHED
| _BUSY
| _EXHAUSTED.

#[global] Instance state_eq_dec : EqDecision state.
Proof. solve_decision. Defined.

(** Instance attributes of an [AsyncIteratorContext].  The context owns the
    wrapped iterator.  [warned] collects the messages handed to
    [warnings.warn]. *)
Record context : Type := {
  _state : state;
  _aiterator : aiterator;
  _task_group : task_group;
  _item_channel : item_channel;
  _sync_channel : sync_channel;
  warned : list string
}.

(** *** Classes, objects and the object store *)

(** A class of iterator contexts: the names of the subclasses from the
    class down to [AsyncIteratorContext], which is the empty chain.  The
    subclasses keep the constructor of [AsyncIteratorContext]. *)
Definition context_class : Type := list string.

Definition AsyncIteratorContext_cls : context_class := [].

(** What may be passed as [cls]: a class of contexts or some other class. *)
Inductive pyclass : Type :=
| ContextClass (k : context_class)
| OtherClass (name : string).

Definition class_name (k : context_class) : string :=
  match k with
  | [] => "AsyncIteratorContext"
  | name :: _ => name
  end.

(** An object of the store: an instance of a class of contexts, or any
    other object. *)
Inductive object : Type :=
| Plain (it : aiterator)
| Instance (k : context_class) (self : context).

(** The store maps references to objects; a reference outside the store
    reads as [None]. *)
Abbreviation store := (list object).

Definition NoneObject : aiterator :=
  {| type_name := "NoneType"; aiter_method := None; has_anext := false;
     pulls := []; aclose := None; ag_running := false; aclose_calls := 0 |}.

#[global] Instance object_inhabited : Inhabited object :=
  populate (Plain NoneObject).

#[global] Instance object_PyObject : PyObject object := {|
  type_name_of := λ obj, match obj with
                         | Plain it => type_name_of it
                         | Instance k _ => class_name k
                         end;
  hasattr_aiter := λ obj, match obj with
                          | Plain it => hasattr_aiter it
                          | Instance _ _ => true
                          end;
  hasattr_anext := λ obj, match obj with
                          | Plain it => hasattr_anext it
                          | Instance _ _ => true
                          end
|}.

(** [isinstance(obj, cls)] for a class [cls] of contexts. *)
Definition isinstance (σ : store) (ref : loc) (cls : context_class) : bool :=
  match σ !!! ref with
  | Plain _ => false
  | Instance k _ => bool_decide (cls `suffix_of` k)
  end.

(** [repr(obj)] of a context. *)
Definition repr (σ : store) (ref : loc) : string :=
  "<" ++ type_name_of (σ !!! ref) ++ " object at " ++ pretty ref ++ ">".

(** [obj.__aiter__()], for the object [obj] at [self].  A context returns
    itself (line 164). *)
Definition call_aiter (obj : object) (self : loc) : result loc :=
  match obj with
  | Plain {| aiter_method := Some (Other l) |} => Return l
  | Plain {| aiter_method := Some (AiterRaises e) |} => Raise e
  | _ => Return self
  end.

(** [aiter(obj)]: access the aiter magic method. *)
Definition aiter (aiterable : loc) : M store loc :=
  λ σ, let obj := σ !!! aiterable in
       match assert_async_iterable obj with
       | Return _ => (call_aiter obj aiterable, σ)
       | Raise e => (Raise e, σ)
       | Blocked => (Blocked, σ)
       end.

Module AsyncIteratorContext.

Definition set_state (s : state) : M context unit :=
  modify (λ c, {| _state := s; _aiterator := _aiterator c;
                  _task_group := _task_group c;
                  _item_channel := _item_channel c;
                  _sync_channel := _sync_channel c; warned := warned c |}).
Definition set_aiterator (it : aiterator) (c : context) : context :=
  {| _state := _state c; _aiterator := it; _task_group := _task_group c;
     _item_channel := _item_channel c; _sync_channel := _sync_channel c;
     warned := warned c |}.
Definition set_task_group (g : task_group) (c : context) : context :=
  {| _state := _state c; _aiterator := _aiterator c; _task_group := g;
     _item_channel := _item_channel c; _sync_channel := _sync_channel c;
     warned := warned c |}.
Definition set_item_channel (ch : item_channel) (c : context) : context :=
  {| _state := _state c; _aiterator := _aiterator c;
     _task_group := _task_group c; _item_channel := ch;
     _sync_channel := _sync_channel c; warned := warned c |}.
Definition set_sync_channel (ch : sync_channel) (c : context) : context :=
  {| _state := _state c; _aiterator := _aiterator c;
     _task_group := _task_group c; _item_channel := _item_channel c;
     _sync_channel := ch; warned := warned c |}.

(** [warnings.warn(msg)] *)
Definition warn (msg : string) : M context unit :=
  modify (λ c, {| _state := _state c; _aiterator := _aiterator c;
                  _task_group := _task_group c;
                  _item_channel := _item_channel c;
                  _sync_channel := _sync_channel c;
                  warned := (warned c ++ [msg])%list |}).

(** Run an operation of the wrapped iterator on [self._aiterator]. *)
Definition on_aiterator {A} (m : M aiterator A) : M context A :=
  λ c, let '(r, it) := m (_aiterator c) in (r, set_aiterator it c).

(** The attribute assignments of [__init__]. *)
Definition init (aiterator : aiterator) : context :=
  {| _state := _STANDBY;
     _aiterator := aiterator;
     _task_group := compat.create_task_group;
     _item_channel := compat.open_item_channel;
     _sync_channel := compat.open_sync_channel;
     warned := [] |}.

(** [AsyncIteratorContext(aiterator)], also for a subclass [cls]: the
    reference of the new instance. *)
Definition __init__ (cls : context_class) (aiterator : loc) : M store loc :=
  let* σ := get in
  lift (assert_async_iterator (σ !!! aiterator)) >>
  if isinstance σ aiterator AsyncIteratorContext_cls
  then raise (TypeError (repr σ aiterator
                         ++ " is already an AsyncIteratorContext"))
  else
  match σ !!! aiterator with
  | Plain it =>
      modify (λ σ, (σ ++ [Instance cls (init it)])%list) >>
      ret (length σ)
  | Instance _ _ =>
      (* a context: refused by the test above *)
      raise (TypeError (repr σ aiterator
                        ++ " is already an AsyncIteratorContext"))
  end.

(** *** The producer task *)

(** Modelled from the spec: the cancel scope of [compat]'s task group.  An
    await inside the scope: once cancellation was requested, an await that
    is not shielded raises [CancelledError]. *)
Definition checkpoint (shield : bool) : M context unit :=
  λ c, if cancel_called (_task_group c) && negb shield
       then (Raise CancelledError, c) else (Return tt, c).

(** Modelled from the spec: [compat]'s channel, receiving end.
    [await self._sync_receiver.receive()] *)
Definition sync_receive : M context unit :=
  checkpoint false >>
  λ c, if demand (_sync_channel c)
       then (Return tt,
             set_sync_channel
               {| demand := false;
                  sync_sender_closed := sync_sender_closed (_sync_channel c) |} c)
       else (Blocked, c).

(** Modelled from the spec: [compat]'s channel, sending end.
    [await self._item_sender.send(msg)].  The consumer is parked in the
    matching receive whenever the producer runs. *)
Definition item_send (msg : value * option exn) : M context unit :=
  checkpoint false >>
  λ c, if item_sender_closed (_item_channel c)
       then (Raise ClosedResourceError, c)
       else match item_slot (_item_channel c) with
            | Some _ => (Blocked, c)
            | None =>
                (Return tt,
                 set_item_channel {| item_slot := Some msg;
                                     item_sender_closed := false |} c)
            end.

(** Modelled from the spec: [compat]'s channel, closing.  Leaving
    [async with self._item_sender] closes the sending end. *)
Definition item_sender_aexit : M context unit :=
  modify (λ c, set_item_channel
                 {| item_slot := item_slot (_item_channel c);
                    item_sender_closed := true |} c).

(** Modelled from the spec: the scheduler of [compat]'s task group.  A
    rendezvous on the item channel makes the consumer and the producer both
    runnable, and the specification fixes no order between them.  The
    consumer goes first; the producer stays suspended in its [send()].
    Behind the send of line 132 the producer has nothing to do but to park
    in [receive()] again, so that it is taken to be parked there at once;
    behind the send of line 141 it has the close attempt left, and its
    suspension is recorded in the task group.  When it goes on is the
    choice of the scheduler ([run_producer]); it has gone on when
    [__aexit__] has joined the task group. *)
Definition suspend_in_send : M context unit :=
  λ c, (Blocked,
        set_task_group {| entered := entered (_task_group c);
                          cancel_called := cancel_called (_task_group c);
                          task := Delivered |} c).

(** The body of the loop after the demand token arrived (lines 129-142);
    [true] stands for [continue] and [false] for [break]. *)
Definition propagate_item : M context bool :=
  try_except
    (let* item := (checkpoint false >> on_aiterator anext) in
     item_send (item, None) >>
     ret true)
    (λ exc, match exc with
            | StopAsyncIteration => Some (ret false)
            | _ => if is_Exception exc
                   then Some (item_send (VNone, Some exc) >>
                              suspend_in_send >>
                              ret false)
                   else None
            end).

(** [while True: ...].  The sync channel holds at most one demand token,
    so a resumed loop runs at most one round before it parks in
    [receive()] again; [rounds] bounds the further rounds and
    [while_True_rounds] shows that the bound is never reached. *)
Fixpoint while_True (rounds : nat) : M context unit :=
  sync_receive >>
  let* continue := propagate_item in
  if continue
  then match rounds with
       | O => blocked
       | S n => while_True n
       end
  else ret tt.

(** The [finally] clause: safely terminate the wrapped iterator. *)
Definition terminate_aiterator : M context unit :=
  let* c := get in
  let aclose := aclose (_aiterator c) in
  let running := ag_running (_aiterator c) in
  match aclose with
  | Some hook =>
      if negb running
      then try_except
             (compat.open_cancel_scope true
                (λ shield, checkpoint shield >> on_aiterator (call_aclose hook)))
             (λ exc, match exc with
                     | GeneratorExit => Some (ret tt)
                     | _ => None
                     end)
      else ret tt
  | None => ret tt
  end.

(** [_task_target], from the await at which the task is suspended (or
    starts) to the next one or to its end.  Entering the [async with] and
    [try] blocks has no effect: a task parked in [receive()] is resumed at
    the top of the loop, a task suspended in the [send()] of line 141 at
    the [break] of line 142. *)
Definition _task_target : M context unit :=
  async_def
    (try_finally
       (try_finally
          (let* self := get in
           match task (_task_group self) with
           | Delivered => ret tt
           | _ => while_True 1
           end)
          terminate_aiterator)
       item_sender_aexit).

(** Modelled from the spec: the scheduler of [compat]'s task group gives the
    producer task the processor: a suspended task runs until it is
    suspended again or ends. *)
Definition run_producer (c : context) : context :=
  let finish raised c' :=
    set_task_group {| entered := entered (_task_group c');
                      cancel_called := cancel_called (_task_group c');
                      task := Finished raised |} c' in
  match task (_task_group c) with
  | Parked | Delivered =>
      match _task_target c with
      | (Blocked, c') => c'
      | (Return _, c') => finish None c'
      | (Raise e, c') => finish (Some e) c'
      end
  | _ => c
  end.

(** *** Consumer side of the channels and of the task group *)

(** Modelled from the spec: [compat]'s channel, receiving end.
    [await anext(self._item_receiver)]: the consumer parks, the producer
    runs, and the consumer takes what the producer left in the channel; a
    closed channel signals exhaustion. *)
Definition item_receive : M context (value * option exn) :=
  λ c, let c := run_producer c in
       match item_slot (_item_channel c) with
       | Some msg =>
           (Return msg,
            set_item_channel
              {| item_slot := None;
                 item_sender_closed := item_sender_closed (_item_channel c) |} c)
       | None =>
           if item_sender_closed (_item_channel c)
           then (Raise StopAsyncIteration, c)
           else (Blocked, c)
       end.

(** Modelled from the spec: [compat]'s channel, sending end.
    [await self._sync_sender.send(None)]: a rendezvous with the producer
    parked in [receive()]. *)
Definition sync_send : M context unit :=
  λ c, if sync_sender_closed (_sync_channel c)
       then (Raise ClosedResourceError, c)
       else match task (_task_group c), demand (_sync_channel c) with
            | Parked, false =>
                (Return tt,
                 set_sync_channel {| demand := true;
                                     sync_sender_closed := false |} c)
            | _, _ => (Blocked, c)
            end.

(** Modelled from the spec: [compat]'s channel.
    [await self._sync_sender.__aenter__()] *)
Definition sync_sender_aenter : M context unit := ret tt.

(** Modelled from the spec: [compat]'s channel, closing.
    [await self._sync_sender.__aexit__(...)] closes the sending end. *)
Definition sync_sender_aexit : M context unit :=
  modify (λ c, set_sync_channel
                 {| demand := demand (_sync_channel c);
                    sync_sender_closed := true |} c).

(** Modelled from the spec: [compat]'s task group, entering the scope.
    [await self._task_group.__aenter__()].  A task group is entered once;
    what a second entry does is not in the specification, and no property
    below depends on it. *)
Definition task_group_aenter : M context unit :=
  λ c, if entered (_task_group c)
       then (Raise (RuntimeError "task group already entered"), c)
       else (Return tt,
             set_task_group {| entered := true;
                               cancel_called := cancel_called (_task_group c);
                               task := task (_task_group c) |} c).

(** Modelled from the spec: [compat]'s task group, spawning.
    [await self._task_group.spawn(self._task_target)]: the new task runs
    up to its first await. *)
Definition task_group_spawn : M context unit :=
  modify (λ c, run_producer
                 (set_task_group {| entered := entered (_task_group c);
                                    cancel_called := cancel_called (_task_group c);
                                    task := Parked |} c)).

(** Modelled from the spec: [compat]'s task group, requesting cancellation.
    [await self._task_group.cancel_scope.cancel()] *)
Definition cancel_scope_cancel : M context unit :=
  modify (λ c, set_task_group {| entered := entered (_task_group c);
                                 cancel_called := true;
                                 task := task (_task_group c) |} c).

(** Modelled from the spec: [compat]'s task group, leaving the scope.
    [await self._task_group.__aexit__(typ, value, traceback)]: on exit all
    spawned work has completed or been cancelled, and is joined: a block
    left by an exception cancels the scope; what the task raised, other
    than the cancellation itself, is raised to the caller. *)
Definition task_group_aexit (typ : option exn) : M context unit :=
  (match typ with
   | Some _ => cancel_scope_cancel
   | None => ret tt
   end) >>
  modify run_producer >>
  let* c := get in
  match task (_task_group c) with
  | NotSpawned => ret tt
  | Parked | Delivered => blocked
  | Finished None => ret tt
  | Finished (Some CancelledError) => ret tt
  | Finished (Some e) => raise e
  end.

(** *** The methods of the context *)

Definition __aenter__ : M context unit :=
  async_def (
  let* self := get in
  if decide (_state self = _RUNNING)
  then raise (RuntimeError "AsyncIteratorContext is running and cannot be entered")
  else
  if decide (_state self = _FINISHED)
  then raise (RuntimeError "AsyncIteratorContext is closed and cannot be entered")
  else
  set_state _RUNNING >>
  sync_sender_aenter >>
  task_group_aenter >>
  task_group_spawn >>
  ret tt).

Definition __anext__ : M context value :=
  async_def (
  (* Unsafe iteration *)
  let* self := get in
  (if decide (_state self = _STANDBY)
   then warn "AsyncIteratorContext is iterated outside of its context" >>
        __aenter__
   else ret tt) >>
  (* Closed context *)
  let* self := get in
  if decide (_state self = _FINISHED)
  then raise (RuntimeError "AsyncIteratorContext is closed and cannot be iterated")
  else
  (* Iteration is over *)
  if decide (_state self = _EXHAUSTED)
  then raise StopAsyncIteration
  else
  (* Perform a handshake *)
  (if decide (_state self ≠ _BUSY)
   then set_state _BUSY >> sync_send
   else ret tt) >>
  (* Now waits for the next *)
  let* received :=
    try_except item_receive
      (λ exc, match exc with
              | StopAsyncIteration =>
                  Some (set_state _EXHAUSTED >> raise StopAsyncIteration)
              | _ => None
              end) in
  match received with
  | (_, Some exc) => set_state _EXHAUSTED >> raise exc
  | (item, None) => set_state _RUNNING >> ret item
  end).

(** [typ] is the exception that left the [async with] block, if any. *)
Definition __aexit__ (typ : option exn) : M context unit :=
  async_def (
  try_finally
    (let* self := get in
     if decide (_state self = _FINISHED)
     then ret tt
     else
     try_finally
       (try_finally
          (if decide (typ = None ∨ typ = Some GeneratorExit)
           then cancel_scope_cancel
           else ret tt)
          (if decide (typ = Some GeneratorExit)
           then task_group_aexit None
           else task_group_aexit typ))
       sync_sender_aexit)
    (set_state _FINISHED)).

End AsyncIteratorContext.

(** ** The wrapping entry point *)

(** [aitercontext(aiterable, cls=cls)].  The first branch is the failure of
    [assert issubclass(cls, AsyncIteratorContext)]. *)
Definition aitercontext (aiterable : loc) (cls : pyclass) : M store loc :=
  match cls with
  | OtherClass _ => raise AssertionError
  | ContextClass k =>
      let* aiterator := aiter aiterable in
      let* σ := get in
      if isinstance σ aiterator k
      then ret aiterator
      else AsyncIteratorContext.__init__ k aiterator
  end.

(** ** Async / await helper functions *)

(** A coroutine run to completion: how often it suspended and how it
    ended. *)
Definition coroutine : Type := nat * result value.

Definition value_type_name (v : value) : string :=
  match v with
  | VNone => "NoneType"
  | VInt _ => "int"
  | VStr _ => "str"
  | VAwaitable _ => "coroutine"
  end.

(** The expression [await obj]. *)
Definition await (obj : value) : coroutine :=
  match obj with
  | VAwaitable (Resolves n v) => (n, Return v)
  | VAwaitable (Fails n StopIteration) => (n, Return VNone)
  | VAwaitable (Fails n e) => (n, Raise e)
  | _ => (0, Raise (TypeError ("object " ++ value_type_name obj
                               ++ " can't be used in 'await' expression")))
  end.

(** [async def], for a body that keeps no state. *)
Definition async_def_pure (body : coroutine) : coroutine :=
  let '(n, r) := body in (n, coroutine_result r).

(** [await_(obj)]: identity coroutine function. *)
Definition await_ (obj : value) : coroutine := async_def_pure (await obj).

(** [async_(fn)]: wrap the given function into a coroutine function.  A
    function takes its arguments and returns a value or raises. *)
Definition async_ (fn : list value → result value) : list value → coroutine :=
  λ args, async_def_pure
            match fn args with
            | Return obj => await obj
            | Raise e => (0, Raise e)
            | Blocked => (0, Blocked)
            end.

(** * Vocabulary of the properties *)

Import AsyncIteratorContext.

(** A computation leaves the observation [f] of the state alone. *)
Definition preserves {S B A} (f : S → B) (m : M S A) : Prop :=
  ∀ s, f (snd (m s)) = f s.

(** The gate of line 154: the iterator exposes a close hook and does not
    report itself as running. *)
Definition close_attempted (it : aiterator) : bool :=
  match aclose it with
  | Some _ => negb (ag_running it)
  | None => false
  end.

(** What the guarded, shielded call of the hook leaves of its outcome:
    [GeneratorExit] is swallowed, anything else is raised. *)
Definition close_outcome (it : aiterator) : result unit :=
  match aclose it with
  | Some (Some e) =>
      if ag_running it then Return tt
      else if decide (e = GeneratorExit) then Return tt else Raise e
  | _ => Return tt
  end.

Definition closed_aiterator (it : aiterator) : aiterator :=
  if close_attempted it then count_aclose it else it.

(** The error classes of the specification: [TypeMismatch] is Python's
    [TypeError], [InvalidState] is [RuntimeError] and [IterationComplete]
    is [StopAsyncIteration]. *)
Definition TypeMismatch (e : exn) : Prop := ∃ msg, e = TypeError msg.
Definition InvalidState (e : exn) : Prop := ∃ msg, e = RuntimeError msg.
Definition IterationComplete : exn := StopAsyncIteration.

Definition iterated (s : state) : Prop :=
  s = _RUNNING ∨ s = _BUSY ∨ s = _EXHAUSTED.

(** The order of the states along the life of a context. *)
Definition rank (s : state) : nat :=
  match s with
  | _STANDBY => 0
  | _RUNNING | _BUSY => 1
  | _EXHAUSTED => 2
  | _FINISHED => 3
  end.

(** The three operations of a context. *)
Inductive operation : Type :=
| enter
| next
| exit (typ : option exn).

Definition perform (op : operation) (c : context) : context :=
  match op with
  | enter => snd (__aenter__ c)
  | next => snd (__anext__ c)
  | exit typ => snd (__aexit__ typ c)
  end.

Definition outcome (op : operation) (c : context) : result unit :=
  match op with
  | enter => fst (__aenter__ c)
  | next => match fst (__anext__ c) with
            | Return _ => Return tt
            | Raise e => Raise e
            | Blocked => Blocked
            end
  | exit typ => fst (__aexit__ typ c)
  end.

(** The canonical contexts of a run: after [__aenter__], and after the
    producer task ended. *)
Definition running (it : aiterator) (w : list string) : context :=
  {| _state := _RUNNING; _aiterator := it;
     _task_group := {| entered := true; cancel_called := false; task := Parked |};
     _item_channel := compat.open_item_channel;
     _sync_channel := compat.open_sync_channel;
     warned := w |}.

Definition exhausted (it : aiterator) (raised : option exn) (w : list string)
  : context :=
  {| _state := _EXHAUSTED; _aiterator := it;
     _task_group := {| entered := true; cancel_called := false;
                       task := Finished raised |};
     _item_channel := {| item_slot := None; item_sender_closed := true |};
     _sync_channel := compat.open_sync_channel;
     warned := w |}.

(** The context after [__anext__] raised an error of the iterator: the
    producer has handed the error over and is suspended in its [send()],
    the close attempt still before it. *)
Definition failed (it : aiterator) (w : list string) : context :=
  {| _state := _EXHAUSTED; _aiterator := it;
     _task_group := {| entered := true; cancel_called := false;
                       task := Delivered |};
     _item_channel := compat.open_item_channel;
     _sync_channel := compat.open_sync_channel;
     warned := w |}.

(** An iterator of the usual kind: an asynchronous generator object. *)
Definition async_generator (ps : list pull) (hook : option (option exn))
  (is_running : bool) : aiterator :=
  {| type_name := "async_generator"; aiter_method := Some Self;
     has_anext := true; pulls := ps; aclose := hook;
     ag_running := is_running; aclose_calls := 0 |}.

(** What the close attempt looks at and counts. *)
Definition close_view (c : context) : option (option exn) * bool * nat :=
  (aclose (_aiterator c), ag_running (_aiterator c),
   aclose_calls (_aiterator c)).

(** The join of [__aexit__] (lines 225-232): the request for cancellation
    and the wait for the task group. *)
Definition join_task_group (typ : option exn) : M context unit :=
  try_finally
    (if decide (typ = None ∨ typ = Some GeneratorExit)
     then cancel_scope_cancel
     else ret tt)
    (if decide (typ = Some GeneratorExit)
     then task_group_aexit None
     else task_group_aexit typ).

(** The loop of the producer from where the task is resumed: the top of
    the loop, or the [break] of line 142. *)
Definition producer_loop : M context unit :=
  λ c, match task (_task_group c) with
       | Delivered => (Return tt, c)
       | _ => while_True 1 c
       end.

(** The two [finally] clauses behind the loop: the close attempt, then the
    closing of the item channel. *)
Definition shutdown (r : result unit) (c : context) : result unit * context :=
  (match close_outcome (_aiterator c) with
   | Return _ => r
   | other => other
   end,
   snd (item_sender_aexit
          (set_aiterator (closed_aiterator (_aiterator c)) c))).

(** What the producer task ended with when the loop was left with [r]:
    the error of the close attempt, or else that of the loop, as it leaves
    the coroutine. *)
Definition task_raised (r : result unit) (it : aiterator) : option exn :=
  match close_outcome it, r with
  | Raise e, _ => Some (coroutine_raises e)
  | _, Raise e => Some (coroutine_raises e)
  | _, _ => None
  end.

Definition signals_exhaustion (ps : list pull) : Prop :=
  match ps with
  | [] | Throw StopAsyncIteration :: _ => True
  | _ => False
  end.

(** Successive calls of [__anext__] and what each gave. *)
Fixpoint drain (n : nat) (c : context) : list (result value) * context :=
  match n with
  | O => ([], c)
  | S n =>
      let '(r, c) := __anext__ c in
      let '(rs, c) := drain n c in
      (r :: rs, c)
  end.

(** The context when [__anext__] has sent its demand token (line 186) and
    waits on the item channel. *)
Definition awaiting (it : aiterator) (w : list string) : context :=
  {| _state := _BUSY; _aiterator := it;
     _task_group := {| entered := true; cancel_called := false; task := Parked |};
     _item_channel := compat.open_item_channel;
     _sync_channel := {| demand := true; sync_sender_closed := false |};
     warned := w |}.

(** The context that [__aexit__] leaves behind once the task was joined. *)
Definition finished (it : aiterator) (raised : option exn) (w : list string)
  : context :=
  {| _state := _FINISHED; _aiterator := it;
     _task_group := {| entered := true; cancel_called := true;
                       task := Finished raised |};
     _item_channel := {| item_slot := None; item_sender_closed := true |};
     _sync_channel := {| demand := false; sync_sender_closed := true |};
     warned := w |}.

(** A sequence of operations on a context, first to last. *)
Definition run (ops : list operation) (c : context) : context :=
  foldl (λ c op, perform op c) c ops.

(** How many of the operations are calls of [__anext__]. *)
Fixpoint nexts (ops : list operation) : nat :=
  match ops with
  | [] => 0
  | next :: ops => S (nexts ops)
  | _ :: ops => nexts ops
  end.

(** What happens to a context: the consumer calls one of the operations,
    or the scheduler resumes the producer task while the consumer is busy
    elsewhere. *)
Inductive event : Type :=
| call (op : operation)
| resume_producer.

Definition occur (ev : event) (c : context) : context :=
  match ev with
  | call op => perform op c
  | resume_producer => run_producer c
  end.

(** A sequence of events on a context, first to last. *)
Definition history (evs : list event) (c : context) : context :=
  foldl (λ c ev, occur ev c) c evs.

(** The contexts met between the events on a context that was entered
    around the iterator [it0]: it is iterated, with the iterator at some
    later point of its script; or the iterator has failed and the producer
    has its close attempt still before it; or the producer task has ended;
    or the context was left. *)
Inductive lifecycle (it0 : aiterator) (w : list string) : context → Prop :=
| life_running ps :
    ps `suffix_of` pulls it0 →
    lifecycle it0 w (running (set_pulls ps it0) w)
| life_failed ps :
    ps `suffix_of` pulls it0 →
    lifecycle it0 w (failed (set_pulls ps it0) w)
| life_exhausted ps raised :
    ps `suffix_of` pulls it0 →
    lifecycle it0 w (exhausted (closed_aiterator (set_pulls ps it0)) raised w)
| life_finished ps raised :
    ps `suffix_of` pulls it0 →
    lifecycle it0 w (finished (closed_aiterator (set_pulls ps it0)) raised w).

(** The message of the warning of [__anext__]. *)
Definition unsafe_iteration_warning : string :=
  "AsyncIteratorContext is iterated outside of its context".

(** * Properties *)

(** ** Computations that leave an observation of the state alone *)

Section preserves.
Context {S B : Type} (f : S → B).

Lemma preserves_ret {A} (a : A) : preserves f (ret a).
Proof. by intros s. Qed.

Lemma preserves_raise {A} e : preserves f (@raise S A e).
Proof. by intros s. Qed.

Lemma preserves_blocked {A} : preserves f (@blocked S A).
Proof. by intros s. Qed.

Lemma preserves_lift {A} (r : result A) : preserves f (lift r).
Proof. by intros s. Qed.

Lemma preserves_get : preserves f get.
Proof. by intros s. Qed.

Lemma preserves_modify g : (∀ s, f (g s) = f s) → preserves f (modify g).
Proof. intros Hg s. apply Hg. Qed.

Lemma preserves_bind {A C} (m : M S A) (k : A → M S C) :
  preserves f m → (∀ a, preserves f (k a)) → preserves f (bind m k).
Proof.
  intros Hm Hk s. unfold bind. specialize (Hm s).
  destruct (m s) as [[a|e|] s']; simpl in *; [|done..].
  by rewrite Hk.
Qed.

Lemma preserves_try_finally {A} (body : M S A) fin :
  preserves f body → preserves f fin → preserves f (try_finally body fin).
Proof.
  intros Hb Hf s. unfold try_finally. specialize (Hb s).
  destruct (body s) as [[a|e|] s']; simpl in *; [| |done];
    specialize (Hf s'); destruct (fin s') as [[[]|e'|] s'']; simpl in *;
    congruence.
Qed.

Lemma preserves_try_except {A} (body : M S A) handler :
  preserves f body →
  (∀ e h, handler e = Some h → preserves f h) →
  preserves f (try_except body handler).
Proof.
  intros Hb Hh s. unfold try_except. specialize (Hb s).
  destruct (body s) as [[a|e|] s']; simpl in *; [done| |done].
  destruct (handler e) as [h|] eqn:He; [|done].
  by rewrite (Hh _ _ He).
Qed.

Lemma preserves_async_def {A} (body : M S A) :
  preserves f body → preserves f (async_def body).
Proof.
  intros Hb s. unfold async_def. specialize (Hb s).
  by destruct (body s) as [r s'].
Qed.
End preserves.

(** A coroutine ends as its body does, but for [StopIteration], and leaves
    the state its body leaves. *)
Lemma async_def_eq {S A} (body : M S A) s :
  async_def body s = (coroutine_result (fst (body s)), snd (body s)).
Proof. unfold async_def. by destruct (body s). Qed.

Lemma coroutine_result_not_blocked {A} (r : result A) :
  r ≠ Blocked → coroutine_result r ≠ Blocked.
Proof. by destruct r. Qed.

Lemma coroutine_raises_idemp e :
  coroutine_raises (coroutine_raises e) = coroutine_raises e.
Proof. by destruct e. Qed.

Lemma coroutine_raises_id e : e ≠ StopIteration → coroutine_raises e = e.
Proof. by destruct e. Qed.

(** The producer task and the channel operations never touch [_state]; only
    the consumer-side methods do. *)
Section state_untouched.

Local Ltac leaf :=
  let c := fresh "c" in
  intros c; destruct c; simpl;
  repeat (match goal with
          | |- context [match ?x with _ => _ end] => destruct x
          | |- context [if ?x then _ else _] => destruct x
          end; simpl); done.

Lemma checkpoint_state shield : preserves _state (checkpoint shield).
Proof. unfold checkpoint. leaf. Qed.

Lemma sync_receive_state : preserves _state sync_receive.
Proof.
  apply preserves_bind; [apply checkpoint_state|intros _]. leaf.
Qed.

Lemma item_send_state msg : preserves _state (item_send msg).
Proof.
  apply preserves_bind; [apply checkpoint_state|intros _]. leaf.
Qed.

Lemma on_aiterator_state {A} (m : M aiterator A) :
  preserves _state (on_aiterator m).
Proof. intros c. unfold on_aiterator. by destruct (m _). Qed.

Lemma suspend_in_send_state : preserves _state suspend_in_send.
Proof. by intros c. Qed.

Lemma propagate_item_state : preserves _state propagate_item.
Proof.
  apply preserves_try_except.
  - repeat first [apply checkpoint_state | apply on_aiterator_state
                  | apply item_send_state | apply preserves_ret
                  | apply preserves_bind; [|intros ?]].
  - intros e h He.
    destruct e; simpl in He; simplify_eq;
      repeat first [apply item_send_state | apply suspend_in_send_state
                   | apply preserves_ret
                   | apply preserves_bind; [|intros ?]].
Qed.

Lemma while_True_state rounds : preserves _state (while_True rounds).
Proof.
  induction rounds as [|n IH]; simpl;
    (apply preserves_bind; [apply sync_receive_state|intros _]);
    (apply preserves_bind; [apply propagate_item_state|intros []]);
    auto using @preserves_ret, @preserves_blocked.
Qed.

Lemma terminate_aiterator_state : preserves _state terminate_aiterator.
Proof.
  apply preserves_bind; [apply preserves_get|intros c]. cbv zeta.
  destruct (aclose (_aiterator c)) as [hook|]; [|apply preserves_ret].
  destruct (ag_running (_aiterator c)); simpl; [apply preserves_ret|].
  apply preserves_try_except.
  - unfold compat.open_cancel_scope.
    apply preserves_bind; [apply checkpoint_state|intros _].
    apply on_aiterator_state.
  - intros e h He. destruct e; simplify_eq. apply preserves_ret.
Qed.

Lemma _task_target_state : preserves _state _task_target.
Proof.
  apply preserves_async_def. repeat apply preserves_try_finally.
  - apply preserves_bind; [apply preserves_get|intros self].
    destruct (task _); auto using @preserves_ret, while_True_state.
  - apply terminate_aiterator_state.
  - by apply preserves_modify.
Qed.

Lemma run_producer_state c : _state (run_producer c) = _state c.
Proof.
  unfold run_producer. destruct (task _); try done;
    pose proof (_task_target_state c) as H;
    by destruct (_task_target c) as [[[]|e|] c'].
Qed.

Lemma item_receive_state : preserves _state item_receive.
Proof.
  intros c. unfold item_receive.
  rewrite <- (run_producer_state c).
  destruct (run_producer c) as [? ? ? [[msg|] []] ? ?]; done.
Qed.

Lemma sync_send_state : preserves _state sync_send.
Proof. unfold sync_send. leaf. Qed.

Lemma task_group_aexit_state typ : preserves _state (task_group_aexit typ).
Proof.
  apply preserves_bind; [|intros _].
  { destruct typ; [by apply preserves_modify|apply preserves_ret]. }
  apply preserves_bind; [|intros _].
  { apply preserves_modify, run_producer_state. }
  apply preserves_bind; [apply preserves_get|intros c].
  destruct (task _) as [| | |[[]| ]];
    auto using @preserves_ret, @preserves_blocked, @preserves_raise.
Qed.

End state_untouched.

(** ** The close attempt of the producer *)

Lemma set_aiterator_id c : set_aiterator (_aiterator c) c = c.
Proof. by destruct c. Qed.

Lemma terminate_aiterator_eq c :
  terminate_aiterator c
  = (close_outcome (_aiterator c),
     set_aiterator (closed_aiterator (_aiterator c)) c).
Proof.
  unfold terminate_aiterator, close_outcome, closed_aiterator, close_attempted.
  unfold bind at 1, get. cbv zeta.
  destruct (aclose (_aiterator c)) as [hook|] eqn:Hhook;
    [|by rewrite set_aiterator_id].
  destruct (ag_running (_aiterator c)) eqn:Hrun; simpl;
    [by destruct hook; rewrite set_aiterator_id|].
  unfold try_except, compat.open_cancel_scope, bind, checkpoint, on_aiterator,
    call_aclose.
  rewrite andb_false_r.
  destruct hook as [e|]; [|done].
  destruct (decide (e = GeneratorExit)) as [-> | Hne]; [done|].
  by destruct e.
Qed.

(** ** Leaving the loop, joining the task *)

Lemma terminate_aiterator_not_blocked c : fst (terminate_aiterator c) ≠ Blocked.
Proof.
  rewrite terminate_aiterator_eq. simpl. unfold close_outcome.
  destruct (aclose _) as [[e|]|]; try done.
  destruct (ag_running _); [done|]. by destruct (decide _).
Qed.

(** A task whose scope was cancelled leaves the loop at its await. *)
Lemma while_True_cancelled rounds c :
  cancel_called (_task_group c) = true →
  while_True rounds c = (Raise CancelledError, c).
Proof.
  intros Hc. destruct rounds; simpl;
    unfold bind at 1, sync_receive, bind at 1, checkpoint; by rewrite Hc.
Qed.

(** The loop of the task, from where the task is resumed. *)
Lemma _task_target_eq' c :
  _task_target c
  = async_def
      (try_finally
         (try_finally
            (match task (_task_group c) with
             | Delivered => ret tt
             | _ => while_True 1
             end)
            terminate_aiterator)
         item_sender_aexit) c.
Proof. done. Qed.

Lemma _task_target_cancelled c :
  cancel_called (_task_group c) = true →
  fst (_task_target c) ≠ Blocked.
Proof.
  intros Hc. rewrite _task_target_eq', async_def_eq. cbn [fst].
  apply coroutine_result_not_blocked. unfold try_finally at 1 2.
  pose proof (terminate_aiterator_not_blocked c) as Hnb.
  destruct (task (_task_group c));
    rewrite ?while_True_cancelled by done; unfold ret;
    destruct (terminate_aiterator c) as [[[]|e'|] c']; simpl in *; done.
Qed.

Lemma run_producer_cancelled c :
  cancel_called (_task_group c) = true →
  task (_task_group (run_producer c)) ≠ Parked
  ∧ task (_task_group (run_producer c)) ≠ Delivered.
Proof.
  intros Hc. unfold run_producer.
  destruct (task (_task_group c)) eqn:Ht; try by rewrite Ht.
  - pose proof (_task_target_cancelled c Hc) as Hnb.
    destruct (_task_target c) as [[[]|e|] c']; simpl in *; done.
  - pose proof (_task_target_cancelled c Hc) as Hnb.
    destruct (_task_target c) as [[[]|e|] c']; simpl in *; done.
Qed.

(** Joining the task group never blocks once cancellation was requested. *)
Lemma task_group_aexit_cancelled c :
  cancel_called (_task_group c) = true →
  fst (task_group_aexit None c) ≠ Blocked.
Proof.
  intros Hc. unfold task_group_aexit, bind, modify, get, ret. simpl.
  pose proof (run_producer_cancelled c Hc) as [Hp Hd].
  destruct (task (_task_group (run_producer c))) as [| | |[[]| ]]; done.
Qed.

Lemma task_group_aexit_failed e c :
  fst (task_group_aexit (Some e) c) ≠ Blocked.
Proof.
  unfold task_group_aexit, bind, modify, get, ret, cancel_scope_cancel. simpl.
  match goal with |- context [run_producer ?c'] =>
    pose proof (run_producer_cancelled c' eq_refl) as [Hp Hd];
    destruct (task (_task_group (run_producer c'))) as [| | |[[]| ]]
  end; done.
Qed.

(** [__aexit__] leaves the context [_FINISHED] and does return or raise. *)
Lemma __aexit___finishes typ c :
  _state (snd (__aexit__ typ c)) = _FINISHED ∧ fst (__aexit__ typ c) ≠ Blocked.
Proof.
  unfold __aexit__.
  assert (∀ (body : M context unit) c,
            fst (body c) ≠ Blocked →
            _state (snd (try_finally body (set_state _FINISHED) c)) = _FINISHED
            ∧ fst (try_finally body (set_state _FINISHED) c) ≠ Blocked) as Hfin.
  { intros body c0 Hb. unfold try_finally.
    destruct (body c0) as [[[]|e|] c']; simpl in *; done. }
  rewrite async_def_eq. cbn [fst snd].
  match goal with |- context [try_finally ?body (set_state _FINISHED) c] =>
    cut (fst (body c) ≠ Blocked);
    [intros Hr; split; [by apply Hfin|];
     apply coroutine_result_not_blocked; by apply Hfin|]
  end.
  unfold bind at 1, get.
  destruct (decide (_state c = _FINISHED)); [done|].
  assert (∀ (body : M context unit) c,
            fst (body c) ≠ Blocked →
            fst (try_finally body sync_sender_aexit c) ≠ Blocked) as Hsync.
  { intros body c0 Hb. unfold try_finally.
    destruct (body c0) as [[[]|e|] c']; simpl in *; done. }
  apply Hsync. unfold try_finally.
  destruct (decide (typ = None ∨ typ = Some GeneratorExit)) as [Hcancel|Hkeep].
  - simpl.
    destruct (decide (typ = Some GeneratorExit)) as [-> | Hne].
    + match goal with |- context [task_group_aexit None ?c'] =>
        pose proof (task_group_aexit_cancelled c' eq_refl) as Hj;
        destruct (task_group_aexit None c') as [[[]|e|] c'']
      end; simpl in *; done.
    + destruct Hcancel as [-> | ->]; [|done].
      match goal with |- context [task_group_aexit None ?c'] =>
        pose proof (task_group_aexit_cancelled c' eq_refl) as Hj;
        destruct (task_group_aexit None c') as [[[]|e|] c'']
      end; simpl in *; done.
  - simpl.
    destruct (decide (typ = Some GeneratorExit)) as [-> | Hne]; [tauto|].
    destruct typ as [e|]; [|tauto].
    pose proof (task_group_aexit_failed e c) as Hj.
    destruct (task_group_aexit (Some e) c) as [[[]|e'|] c'']; simpl in *; done.
Qed.

Lemma set_state_id c : snd (set_state (_state c) c) = c.
Proof. by destruct c. Qed.

Lemma __aexit___finished typ c :
  _state c = _FINISHED → __aexit__ typ c = (Return tt, c).
Proof.
  intros Hs. unfold __aexit__, async_def, try_finally, bind, get.
  rewrite decide_True by done. simpl.
  rewrite <- Hs. pose proof (set_state_id c) as Hid.
  unfold set_state, modify in *. simpl in *. by rewrite Hid.
Qed.

(** ** The state machine *)

Lemma set_state_then {A} s (m : M context A) c :
  preserves _state m → _state (snd ((set_state s >> m) c)) = s.
Proof. intros Hm. unfold bind, set_state, modify. by rewrite Hm. Qed.

Lemma task_group_aenter_state : preserves _state task_group_aenter.
Proof. intros [? ? [[] ? ?] ? ? ?]; done. Qed.

Lemma task_group_spawn_state : preserves _state task_group_spawn.
Proof. apply preserves_modify. intros c. by rewrite run_producer_state. Qed.

Lemma __aenter___running c :
  _state c = _RUNNING →
  __aenter__ c
  = (Raise (RuntimeError "AsyncIteratorContext is running and cannot be entered"), c).
Proof. intros Hs. unfold __aenter__, async_def, bind, get. by rewrite decide_True. Qed.

Lemma __aenter___finished c :
  _state c = _FINISHED →
  __aenter__ c
  = (Raise (RuntimeError "AsyncIteratorContext is closed and cannot be entered"), c).
Proof.
  intros Hs. unfold __aenter__, async_def, bind, get.
  rewrite decide_False by congruence. by rewrite decide_True.
Qed.

(** From any other state [__aenter__] sets [_RUNNING], whatever the channel
    and the task group then do. *)
Lemma __aenter___state c :
  _state c ≠ _RUNNING → _state c ≠ _FINISHED →
  _state (snd (__aenter__ c)) = _RUNNING.
Proof.
  intros H1 H2. unfold __aenter__. rewrite async_def_eq. cbn [snd].
  unfold bind at 1, get.
  rewrite !decide_False by done.
  apply set_state_then.
  repeat first [apply task_group_aenter_state | apply task_group_spawn_state
               | apply preserves_ret | apply preserves_bind; [|intros ?]].
Qed.

Lemma __anext___finished c :
  _state c = _FINISHED →
  __anext__ c
  = (Raise (RuntimeError "AsyncIteratorContext is closed and cannot be iterated"), c).
Proof.
  intros Hs. unfold __anext__, async_def. unfold bind at 1, get.
  rewrite decide_False by congruence. unfold bind, ret, get.
  by rewrite decide_True.
Qed.

Lemma __anext___exhausted c :
  _state c = _EXHAUSTED → __anext__ c = (Raise StopAsyncIteration, c).
Proof.
  intros Hs. unfold __anext__, async_def. unfold bind at 1, get.
  rewrite decide_False by congruence. unfold bind, ret, get.
  rewrite decide_False by congruence. by rewrite decide_True.
Qed.

(** The handshake and the wait of [__anext__], from the test of line 184
    on, end in [_RUNNING], [_BUSY] or [_EXHAUSTED]. *)
Lemma bind_eq {S A B} (m : M S A) (k : A → M S B) s :
  bind m k s = match m s with
               | (Return a, s') => k a s'
               | (Raise e, s') => (Raise e, s')
               | (Blocked, s') => (Blocked, s')
               end.
Proof. done. Qed.

Lemma __anext___active c :
  _state c = _RUNNING ∨ _state c = _BUSY →
  iterated (_state (snd (__anext__ c))).
Proof.
  intros Hs. unfold __anext__, async_def.
  rewrite bind_eq. unfold get at 1. cbv beta iota.
  rewrite decide_False by (destruct Hs; congruence).
  rewrite bind_eq. unfold ret at 1. cbv beta iota.
  rewrite bind_eq. unfold get at 1. cbv beta iota.
  rewrite !decide_False by (destruct Hs; congruence).
  rewrite bind_eq.
  assert (∃ r c1, (if decide (_state c ≠ _BUSY)
                   then set_state _BUSY >> sync_send else ret tt) c = (r, c1)
                  ∧ _state c1 = _BUSY) as (r & c1 & -> & Hc1).
  { destruct (decide (_state c ≠ _BUSY)) as [Hnb|Hb].
    - eexists _, _. split; [apply surjective_pairing|].
      apply set_state_then, sync_send_state.
    - exists (Return tt), c. split; [done|].
      by destruct (decide (_state c = _BUSY)). }
  destruct r as [[]|e|]; [|simpl; rewrite Hc1; unfold iterated; auto..].
  rewrite bind_eq. unfold try_except.
  pose proof (item_receive_state c1) as Hr.
  unfold iterated.
  destruct (item_receive c1) as [[[item [exc|]]|e|] c2]; simpl in *.
  - auto.
  - auto.
  - destruct e; simpl; rewrite ?Hr, ?Hc1; auto.
  - rewrite Hr, Hc1. auto.
Qed.

Lemma warn_state msg : preserves _state (warn msg).
Proof. by apply preserves_modify. Qed.

(** Unsafe iteration: the implicit [__aenter__] of line 172 leaves the
    context [_RUNNING], and the call goes on as from that state. *)
Lemma __anext___standby c :
  _state c = _STANDBY →
  ∃ r c1,
    (warn "AsyncIteratorContext is iterated outside of its context"
     >> __aenter__) c = (r, c1)
    ∧ _state c1 = _RUNNING
    ∧ __anext__ c = match r with
                    | Return _ => __anext__ c1
                    | Raise e => (Raise (coroutine_raises e), c1)
                    | Blocked => (Blocked, c1)
                    end.
Proof.
  intros Hs.
  set (m := warn _ >> __aenter__).
  assert (_state (snd (m c)) = _RUNNING) as Hrun.
  { unfold m. rewrite bind_eq.
    pose proof (warn_state "AsyncIteratorContext is iterated outside of its context" c) as Hw.
    destruct (warn _ c) as [[[]|e|] c0] eqn:Hwarn; simpl in Hw; try done.
    apply __aenter___state; congruence. }
  destruct (m c) as [r c1] eqn:Hm. exists r, c1. simpl in Hrun.
  split; [done|]. split; [done|].
  unfold __anext__ at 1, async_def at 1.
  rewrite bind_eq. unfold get at 1. cbv beta iota.
  rewrite decide_True by done. rewrite bind_eq. fold m. rewrite Hm.
  destruct r as [[]|e|]; try done.
  symmetry. unfold __anext__, async_def. rewrite bind_eq. unfold get at 1. cbv beta iota.
  rewrite decide_False by congruence.
  rewrite bind_eq. unfold ret at 1. done.
Qed.

Lemma iterated_rank s : iterated s → 1 ≤ rank s.
Proof. intros [->|[->| ->]]; simpl; lia. Qed.

Lemma __anext___rank c :
  rank (_state c) ≤ rank (_state (snd (__anext__ c))).
Proof.
  destruct (_state c) eqn:Hs.
  - simpl. lia.
  - pose proof (__anext___active c (or_introl Hs)) as Hi.
    apply iterated_rank in Hi. simpl. lia.
  - rewrite __anext___finished by done. simpl. by rewrite Hs.
  - pose proof (__anext___active c (or_intror Hs)) as Hi.
    apply iterated_rank in Hi. simpl. lia.
  - rewrite __anext___exhausted by done. simpl. by rewrite Hs.
Qed.

Lemma __aenter___init it : __aenter__ (init it) = (Return tt, running it []).
Proof. done. Qed.

(** ** Leaving the context: [__aexit__] *)

Lemma join_task_group_not_blocked typ c :
  fst (join_task_group typ c) ≠ Blocked.
Proof.
  unfold join_task_group, try_finally.
  destruct (decide (typ = None ∨ typ = Some GeneratorExit)) as [Hcancel|Hkeep].
  - simpl.
    destruct (decide (typ = Some GeneratorExit)) as [-> | Hne].
    + match goal with |- context [task_group_aexit None ?c'] =>
        pose proof (task_group_aexit_cancelled c' eq_refl) as Hj;
        destruct (task_group_aexit None c') as [[[]|e|] c'']
      end; simpl in *; done.
    + destruct Hcancel as [-> | ->]; [|done].
      match goal with |- context [task_group_aexit None ?c'] =>
        pose proof (task_group_aexit_cancelled c' eq_refl) as Hj;
        destruct (task_group_aexit None c') as [[[]|e|] c'']
      end; simpl in *; done.
  - simpl.
    destruct (decide (typ = Some GeneratorExit)) as [-> | Hne]; [tauto|].
    destruct typ as [e|]; [|tauto].
    pose proof (task_group_aexit_failed e c) as Hj.
    destruct (task_group_aexit (Some e) c) as [[[]|e'|] c'']; simpl in *; done.
Qed.

(** The two [finally] clauses of [__aexit__] keep the outcome of the
    join. *)
Lemma __aexit___outcome typ c :
  _state c ≠ _FINISHED →
  fst (__aexit__ typ c) = coroutine_result (fst (join_task_group typ c)).
Proof.
  intros Hs. unfold __aexit__. rewrite async_def_eq. cbn [fst]. f_equal.
  unfold try_finally at 1, bind at 1, get.
  rewrite decide_False by done. unfold try_finally at 1.
  fold (join_task_group typ).
  pose proof (join_task_group_not_blocked typ c) as Hnb.
  by destruct (join_task_group typ c) as [[[]|e|] c'].
Qed.

(** The join raises what the task has ended with, but for the
    cancellation. *)
Lemma join_task_group_raises typ c e :
  task (_task_group c) = Finished (Some e) → e ≠ CancelledError →
  fst (join_task_group typ c) = Raise e.
Proof.
  intros Ht He. unfold join_task_group, try_finally.
  assert (∀ typ' c', task (_task_group c') = Finished (Some e) →
                     fst (task_group_aexit typ' c') = Raise e) as Hjoin.
  { intros typ' c' Ht'.
    destruct c' as [? ? [? ? ?] ? ? ?]. simpl in Ht'. subst.
    by destruct typ', e. }
  destruct (decide (typ = None ∨ typ = Some GeneratorExit)); simpl;
    destruct (decide (typ = Some GeneratorExit));
    match goal with |- context [task_group_aexit ?t ?c'] =>
      pose proof (Hjoin t c' Ht) as Hj;
      destruct (task_group_aexit t c') as [[[]|e'|] c'']
    end; simpl in *; congruence.
Qed.

(** C4: [__aexit__] is idempotent.  Called on a context that is already
    [_FINISHED] it returns at once and changes nothing, so a second call
    after any first one has no effect; and every call, whatever [typ] and
    whatever the state of the context, ends (it returns or raises, it does
    not block) with the state set to [_FINISHED].  On a context that is not
    yet [_FINISHED] the call ends as the join of the task group ends: an
    error of the join is raised to the caller (as it leaves the coroutine),
    with the state already updated; so is, in particular, what the
    producer task has ended with, unless it is the cancellation. *)
Theorem aexit_idempotent_and_finishes (typ : option exn) (c : context) :
  (_state c = _FINISHED → __aexit__ typ c = (Return tt, c))
  ∧ (∀ typ', __aexit__ typ' (snd (__aexit__ typ c))
             = (Return tt, snd (__aexit__ typ c)))
  ∧ _state (snd (__aexit__ typ c)) = _FINISHED
  ∧ fst (__aexit__ typ c) ≠ Blocked
  ∧ (_state c ≠ _FINISHED →
     ∀ e, fst (join_task_group typ c) = Raise e →
          fst (__aexit__ typ c) = Raise (coroutine_raises e)
          ∧ _state (snd (__aexit__ typ c)) = _FINISHED)
  ∧ (_state c ≠ _FINISHED →
     ∀ e, task (_task_group c) = Finished (Some e) → e ≠ CancelledError →
          fst (__aexit__ typ c) = Raise (coroutine_raises e)
          ∧ _state (snd (__aexit__ typ c)) = _FINISHED).
Proof.
  destruct (__aexit___finishes typ c) as [Hfin Hnb].
  split; [apply __aexit___finished|].
  split; [intros typ'; by apply __aexit___finished|].
  split; [done|]. split; [done|]. split.
  - intros Hs e He. split; [|done].
    by rewrite __aexit___outcome, He.
  - intros Hs e Ht He. split; [|done].
    by rewrite __aexit___outcome, (join_task_group_raises typ c e).
Qed.

(** A producer task that has ended with an error, and an iterator whose
    close hook fails: [__aexit__] raises the error, and the context is
    [_FINISHED] all the same. *)
Lemma aexit_idempotent_and_finishes_witness :
  let it := async_generator [Yield (VInt 1)]
              (Some (Some (UserException "boom"))) false in
  let c := exhausted it (Some KeyboardInterrupt) [] in
  (fst (__aexit__ None c) = Raise KeyboardInterrupt
   ∧ _state (snd (__aexit__ None c)) = _FINISHED)
  ∧ fst (__aexit__ None (running it [])) = Raise (UserException "boom")
  ∧ __aexit__ None (snd (__aexit__ None c))
    = (Return tt, snd (__aexit__ None c)).
Proof.
  intros it c.
  destruct (aexit_idempotent_and_finishes None c)
    as (_ & _ & Hfin & _ & _ & Htask).
  destruct (aexit_idempotent_and_finishes None (running it []))
    as (_ & _ & _ & _ & Hjoin & _).
  destruct (aexit_idempotent_and_finishes None (snd (__aexit__ None c)))
    as (Hagain & _).
  split; [|split].
  - exact (Htask ltac:(discriminate) KeyboardInterrupt eq_refl
             ltac:(discriminate)).
  - exact (proj1 (Hjoin ltac:(discriminate) (UserException "boom") eq_refl)).
  - exact (Hagain Hfin).
Defined.

(** ** Misuse is detected *)

(** C8: entering a context that is [_RUNNING] fails with [RuntimeError]
    (the specification's [InvalidState]), in particular entering a fresh
    context twice; and [__anext__] after [__aexit__] fails with the
    [RuntimeError] "closed and cannot be iterated". *)
Theorem enter_running_and_next_after_exit (c : context) :
  (_state c = _RUNNING →
   __aenter__ c
   = (Raise (RuntimeError "AsyncIteratorContext is running and cannot be entered"), c))
  ∧ (∀ it, fst (__aenter__ (snd (__aenter__ (init it))))
           = Raise (RuntimeError "AsyncIteratorContext is running and cannot be entered"))
  ∧ (∀ typ, __anext__ (snd (__aexit__ typ c))
            = (Raise (RuntimeError "AsyncIteratorContext is closed and cannot be iterated"),
               snd (__aexit__ typ c)))
  ∧ InvalidState (RuntimeError "AsyncIteratorContext is running and cannot be entered")
  ∧ InvalidState (RuntimeError "AsyncIteratorContext is closed and cannot be iterated").
Proof.
  split; [apply __aenter___running|].
  split; [intros it; by rewrite __aenter___init, __aenter___running|].
  split; [|split; by eexists].
  intros typ. apply __anext___finished, __aexit___finishes.
Qed.

Lemma enter_running_and_next_after_exit_witness :
  let c := running (async_generator [Yield (VInt 1)] (Some None) false) [] in
  fst (__aenter__ c)
  = Raise (RuntimeError "AsyncIteratorContext is running and cannot be entered")
  ∧ fst (__anext__ (snd (__aexit__ None c)))
    = Raise (RuntimeError "AsyncIteratorContext is closed and cannot be iterated").
Proof.
  intros c.
  destruct (enter_running_and_next_after_exit c) as (Henter & _ & Hnext & _).
  split; [by rewrite Henter|by rewrite Hnext].
Defined.

(** ** The order of the states *)

(** [_FINISHED] is terminal. *)
Lemma finished_is_terminal c op :
  _state c = _FINISHED →
  perform op c = c
  ∧ match op with
    | exit _ => outcome op c = Return tt
    | _ => ∃ msg, outcome op c = Raise (RuntimeError msg)
    end.
Proof.
  intros Hs. destruct op as [| |typ]; unfold perform, outcome.
  - rewrite __aenter___finished by done. eauto.
  - rewrite __anext___finished by done. eauto.
  - by rewrite __aexit___finished.
Qed.

(** C5, as the code has it: [_FINISHED] is terminal ([__aenter__] and
    [__anext__] fail there with [RuntimeError], [__aexit__] returns at once,
    the context is unchanged); and each operation moves the state forward
    in the order [_STANDBY] < [_RUNNING], [_BUSY] < [_EXHAUSTED] <
    [_FINISHED], except that [__aenter__] on an [_EXHAUSTED] context sets it
    back to [_RUNNING]. *)
Theorem states_monotonic_but_reentry (c : context) (op : operation) :
  (_state c = _FINISHED →
   perform op c = c
   ∧ match op with
     | exit _ => outcome op c = Return tt
     | _ => ∃ msg, outcome op c = Raise (RuntimeError msg)
     end)
  ∧ (rank (_state c) ≤ rank (_state (perform op c))
     ∨ (op = enter ∧ _state c = _EXHAUSTED
        ∧ _state (perform op c) = _RUNNING)).
Proof.
  split; [apply finished_is_terminal|].
  destruct op as [| |typ]; unfold perform.
  - destruct (decide (_state c = _RUNNING)) as [Hr|Hr];
      [left; by rewrite __aenter___running|].
    destruct (decide (_state c = _FINISHED)) as [Hf|Hf];
      [left; by rewrite __aenter___finished|].
    rewrite __aenter___state by done.
    destruct (_state c); simpl; auto; try lia; done.
  - left. apply __anext___rank.
  - left. destruct (__aexit___finishes typ c) as [-> _].
    destruct (_state c); simpl; lia.
Qed.

Lemma states_monotonic_but_reentry_witness :
  let c := snd (__aexit__ None (running (async_generator [] (Some None) false) [])) in
  perform next c = c
  ∧ (∃ msg, outcome next c = Raise (RuntimeError msg)).
Proof.
  intros c.
  destruct (states_monotonic_but_reentry c next) as [Hterm _].
  apply Hterm. reflexivity.
Defined.

(** The claim of C5 fails as stated: a context that was entered and
    iterated to exhaustion is [_EXHAUSTED]; [__aenter__] passes its two
    guards and sets the state back to [_RUNNING]. *)
Lemma states_not_monotonic :
  let c := snd (__anext__ (snd (__aenter__ (init (async_generator [] (Some None) false))))) in
  _state c = _EXHAUSTED
  ∧ _state (perform enter c) = _RUNNING
  ∧ ¬ rank (_state c) ≤ rank (_state (perform enter c)).
Proof. vm_compute. repeat split. lia. Qed.

(** ** The producer task, exit by exit *)

Lemma anext_close_view it :
  let it' := snd (anext it) in
  aclose it' = aclose it ∧ ag_running it' = ag_running it
  ∧ aclose_calls it' = aclose_calls it.
Proof.
  unfold anext, assert_async_iterator, aiterator_anext.
  destruct (negb _); simpl; [done|].
  destruct (pulls it) as [|[v|e] ps]; done.
Qed.

Lemma checkpoint_close_view shield : preserves close_view (checkpoint shield).
Proof. intros c. unfold checkpoint. by destruct (_ && _). Qed.

Lemma sync_receive_close_view : preserves close_view sync_receive.
Proof.
  apply preserves_bind; [apply checkpoint_close_view|intros _].
  intros c. by destruct (demand _).
Qed.

Lemma item_send_close_view msg : preserves close_view (item_send msg).
Proof.
  apply preserves_bind; [apply checkpoint_close_view|intros _].
  intros c. destruct (item_sender_closed _); [done|].
  by destruct (item_slot _).
Qed.

Lemma propagate_item_close_view : preserves close_view propagate_item.
Proof.
  apply preserves_try_except.
  - apply preserves_bind; [|intros item].
    + apply preserves_bind; [apply checkpoint_close_view|intros _].
      intros c. unfold on_aiterator, close_view.
      pose proof (anext_close_view (_aiterator c)) as (H1 & H2 & H3).
      destruct (anext (_aiterator c)) as [r it']; simpl in *. congruence.
    + apply preserves_bind; [apply item_send_close_view|intros _].
      apply preserves_ret.
  - intros e h He.
    destruct e; simpl in He; simplify_eq;
      repeat first [apply item_send_close_view | apply preserves_ret
                   | by intros ?
                   | apply preserves_bind; [|intros ?]].
Qed.

Lemma while_True_close_view rounds : preserves close_view (while_True rounds).
Proof.
  induction rounds as [|n IH]; simpl;
    (apply preserves_bind; [apply sync_receive_close_view|intros _]);
    (apply preserves_bind; [apply propagate_item_close_view|intros []]);
    auto using @preserves_ret, @preserves_blocked.
Qed.

Lemma close_outcome_not_blocked it : close_outcome it ≠ Blocked.
Proof.
  unfold close_outcome. destruct (aclose it) as [[e|]|]; try done.
  destruct (ag_running it); [done|]. by destruct (decide _).
Qed.

Lemma producer_loop_close_view : preserves close_view producer_loop.
Proof.
  intros c. unfold producer_loop.
  destruct (task _); try done; apply while_True_close_view.
Qed.

Lemma _task_target_eq c :
  _task_target c
  = match producer_loop c with
    | (Blocked, c') => (Blocked, c')
    | (r, c') => async_def (shutdown r) c'
    end.
Proof.
  rewrite _task_target_eq'. unfold async_def, try_finally at 1 2, shutdown.
  assert ((match task (_task_group c) with
           | Delivered => ret tt
           | _ => while_True 1
           end) c = producer_loop c) as ->.
  { unfold producer_loop. by destruct (task _). }
  destruct (producer_loop c) as [[[]|e|] c']; [| |done];
    rewrite terminate_aiterator_eq;
    pose proof (close_outcome_not_blocked (_aiterator c')) as Hnb;
    destruct (close_outcome (_aiterator c')) as [[]|e'|]; done.
Qed.

Lemma aclose_calls_closed it :
  aclose_calls (closed_aiterator it)
  = aclose_calls it + (if close_attempted it then 1 else 0).
Proof.
  unfold closed_aiterator. destruct (close_attempted it); simpl; lia.
Qed.

(** The loop body only touches the wrapped iterator and the item
    channel, and records where the task is suspended. *)
Lemma propagate_item_frame {B} (f : context → B) :
  (∀ c it, f (set_aiterator it c) = f c) →
  (∀ c ch, f (set_item_channel ch c) = f c) →
  preserves f suspend_in_send →
  preserves f propagate_item.
Proof.
  intros Hit Hch Hsusp.
  assert (∀ shield, preserves f (checkpoint shield)) as Hcheck.
  { intros shield c. unfold checkpoint. by destruct (_ && _). }
  assert (∀ msg, preserves f (item_send msg)) as Hsend.
  { intros msg. apply preserves_bind; [apply Hcheck|intros _].
    intros c. destruct (item_sender_closed _); [done|].
    destruct (item_slot _); [done|]. apply Hch. }
  apply preserves_try_except.
  - apply preserves_bind; [|intros item].
    + apply preserves_bind; [apply Hcheck|intros _].
      intros c. unfold on_aiterator. destruct (anext _). apply Hit.
    + apply preserves_bind; [apply Hsend|intros _]. apply preserves_ret.
  - intros e h He.
    destruct e; simpl in He; simplify_eq;
      repeat first [apply Hsend | apply Hsusp | apply preserves_ret
                   | apply preserves_bind; [|intros ?]].
Qed.

(** The round bound of [while_True] is never reached: after taking the one
    demand token the loop parks at its next [receive()]. *)
Lemma while_True_rounds rounds c : while_True rounds c = while_True 0 c.
Proof.
  destruct rounds as [|n]; [done|]. simpl.
  rewrite !(bind_eq sync_receive).
  destruct (sync_receive c) as [[[]|e|] c1] eqn:Hrecv; [|done..].
  rewrite !(bind_eq propagate_item).
  pose proof (propagate_item_frame
                (λ c, (cancel_called (_task_group c), demand (_sync_channel c)))
                (λ _ _, eq_refl) (λ _ _, eq_refl) (λ _, eq_refl) c1) as Hkeep.
  destruct (propagate_item c1) as [[[]|e|] c2] eqn:Hprop; [|done..].
  simpl in Hkeep.
  assert (cancel_called (_task_group c1) = false
          ∧ demand (_sync_channel c1) = false) as [Hcancel Hdemand].
  { revert Hrecv. clear.
    unfold sync_receive, bind at 1, checkpoint.
    destruct (cancel_called (_task_group c)) eqn:Hc; simpl; [done|].
    destruct (demand (_sync_channel c)); [|done]. by intros [= <-]. }
  rewrite Hcancel, Hdemand in Hkeep. injection Hkeep as Hc2 Hd2.
  destruct n; simpl; unfold blocked, bind at 1, sync_receive, bind at 1, checkpoint;
    rewrite Hc2; simpl; by rewrite Hd2.
Qed.

(** ** One call of [__anext__] on an entered context *)

Local Ltac by_cases_on_iterator it :=
  destruct it as [tn am ha ps0 [[e'|]|] [] n0]; simpl in *; subst;
  try (destruct e'); try done.

Lemma __anext___yield it v ps w :
  has_anext it = true → pulls it = Yield v :: ps →
  __anext__ (running it w) = (Return v, running (set_pulls ps it) w).
Proof. intros Ha Hp. destruct it; simpl in *; by subst. Qed.

Lemma __anext___stop it ps w :
  has_anext it = true → pulls it = ps → signals_exhaustion ps →
  __anext__ (running it w)
  = (Raise StopAsyncIteration,
     exhausted (closed_aiterator (set_pulls (tail ps) it))
       (task_raised (Return tt) it) w).
Proof.
  intros Ha Hp Hs. destruct ps as [|[v|[]] ps]; try done;
    by_cases_on_iterator it.
Qed.

Lemma __anext___error it e ps w :
  has_anext it = true → pulls it = Throw e :: ps →
  is_Exception e = true → e ≠ StopAsyncIteration →
  __anext__ (running it w)
  = (Raise (coroutine_raises e), failed (set_pulls ps it) w).
Proof.
  intros Ha Hp He Hne. destruct e; try done; destruct it; simpl in *; by subst.
Qed.

Lemma __anext___base_exception it e ps w :
  has_anext it = true → pulls it = Throw e :: ps →
  is_Exception e = false →
  __anext__ (running it w)
  = (Raise StopAsyncIteration,
     exhausted (closed_aiterator (set_pulls ps it))
       (task_raised (Raise e) it) w).
Proof.
  intros Ha Hp He. destruct e; try done; by_cases_on_iterator it.
Qed.

Lemma drain_yields items : ∀ it rest w,
  has_anext it = true → pulls it = (Yield <$> items) ++ rest →
  drain (length items) (running it w)
  = (Return <$> items, running (set_pulls rest it) w).
Proof.
  induction items as [|v items IH]; intros it rest w Ha Hp; simpl.
  - simpl in Hp. destruct it; simpl in *; by subst.
  - rewrite (__anext___yield it v ((Yield <$> items) ++ rest)) by done.
    rewrite (IH _ rest) by done. done.
Qed.

Lemma drain_exhausted n c :
  _state c = _EXHAUSTED →
  drain n c = (replicate n (Raise StopAsyncIteration), c).
Proof.
  intros Hs. induction n as [|n IH]; [done|]. simpl.
  by rewrite __anext___exhausted, IH.
Qed.

Lemma drain_app n m c :
  drain (n + m) c
  = let '(rs, c1) := drain n c in
    let '(rs', c2) := drain m c1 in
    ((rs ++ rs')%list, c2).
Proof.
  revert c. induction n as [|n IH]; intros c; simpl.
  - by destruct (drain m c).
  - destruct (__anext__ c) as [r c1]. rewrite IH.
    destruct (drain n c1) as [rs c2]. by destruct (drain m c2).
Qed.

(** ** [__aexit__] on the canonical contexts *)

Lemma __aexit___exhausted typ it raised w :
  let c := snd (__aexit__ typ (exhausted it raised w)) in
  _aiterator c = it
  ∧ fst (__aexit__ typ (exhausted it raised w))
    = match raised with
      | Some e => if decide (e = CancelledError) then Return tt
                  else Raise (coroutine_raises e)
      | None => Return tt
      end.
Proof.
  destruct typ as [[]|], raised as [[]|]; done.
Qed.

Lemma __aexit___running typ it w :
  let c := snd (__aexit__ typ (running it w)) in
  _aiterator c = closed_aiterator it
  ∧ fst (__aexit__ typ (running it w))
    = match close_outcome it with
      | Raise e => if decide (e = CancelledError) then Return tt
                   else Raise (coroutine_raises e)
      | _ => Return tt
      end.
Proof.
  destruct typ as [[]|]; by_cases_on_iterator it.
Qed.

Lemma set_pulls_set_pulls ps ps' it :
  set_pulls ps (set_pulls ps' it) = set_pulls ps it.
Proof. done. Qed.

Lemma closed_set_pulls ps it :
  aclose_calls (closed_aiterator (set_pulls ps it))
  = aclose_calls it + (if close_attempted it then 1 else 0)
  ∧ pulls (closed_aiterator (set_pulls ps it)) = ps.
Proof.
  rewrite aclose_calls_closed. unfold closed_aiterator, close_attempted. simpl.
  by destruct (aclose it), (ag_running it).
Qed.

(** ** Iterating a context to its end *)

(** C1, as the code has it: for an iterator that yields [items] and then
    signals exhaustion, [__aenter__] on the fresh context succeeds, the
    next [length items] calls of [__anext__] return the items in order and
    one more call raises [StopAsyncIteration]; by then, and still when
    [__aexit__] has returned or raised, the close hook was invoked exactly
    once if the iterator exposes one and does not report itself running,
    and not at all otherwise. *)
Theorem iterate_fully_then_closed
  (it : aiterator) (items : list value) (rest : list pull) (typ : option exn) :
  has_anext it = true →
  pulls it = ((Yield <$> items) ++ rest)%list →
  signals_exhaustion rest →
  __aenter__ (init it) = (Return tt, running it [])
  ∧ ∃ c,
      drain (length items + 1) (running it [])
      = ((Return <$> items) ++ [Raise IterationComplete], c)%list
      ∧ _state c = _EXHAUSTED
      ∧ fst (__aexit__ typ c) ≠ Blocked
      ∧ _state (snd (__aexit__ typ c)) = _FINISHED
      ∧ aclose_calls (_aiterator (snd (__aexit__ typ c)))
        = aclose_calls it + (if close_attempted it then 1 else 0).
Proof.
  intros Ha Hp Hrest. split; [done|].
  rewrite drain_app, (drain_yields items it rest) by done. simpl.
  rewrite (__anext___stop _ rest) by done.
  eexists. split; [done|]. split; [done|].
  split; [apply __aexit___finishes|]. split; [apply __aexit___finishes|].
  match goal with |- context [__aexit__ typ (exhausted ?i ?r ?w)] =>
    destruct (__aexit___exhausted typ i r w) as [-> _]
  end.
  rewrite set_pulls_set_pulls. apply closed_set_pulls.
Qed.

(** The scenario of the specification: the source [a, b, c]. *)
Lemma iterate_fully_then_closed_witness :
  let it := async_generator [Yield (VStr "a"); Yield (VStr "b"); Yield (VStr "c")]
              (Some None) false in
  ∃ c, drain 4 (running it [])
       = ([Return (VStr "a"); Return (VStr "b"); Return (VStr "c");
           Raise StopAsyncIteration], c)
       ∧ fst (__aexit__ None c) = Return tt
       ∧ aclose_calls (_aiterator (snd (__aexit__ None c))) = 1.
Proof.
  intros it.
  destruct (iterate_fully_then_closed it [VStr "a"; VStr "b"; VStr "c"] [] None)
    as (_ & c & Hdrain & _ & _ & _ & Hcalls); [reflexivity..|exact I|].
  exists c. split; [exact Hdrain|]. split; [|exact Hcalls].
  injection Hdrain as <-. reflexivity.
Defined.

(** The claim of C1 fails as stated: an iterator with a close hook that
    reports itself running ([ag_running]) yields its items, signals
    exhaustion, and is never closed: the gate of line 154 skips the hook.
    Nor is there a call for an iterator without [aclose]. *)
Lemma running_iterator_never_closed :
  let it := async_generator [Yield (VStr "a"); Yield (VStr "b")] (Some None) true in
  let c := snd (drain 3 (snd (__aenter__ (init it)))) in
  let plain := {| type_name := "AsyncRange"; aiter_method := Some Self;
                  has_anext := true; pulls := [Yield (VInt 0)]; aclose := None;
                  ag_running := false; aclose_calls := 0 |} in
  let c' := snd (drain 2 (snd (__aenter__ (init plain)))) in
  (has_anext it = true
   ∧ fst (drain 3 (snd (__aenter__ (init it))))
     = [Return (VStr "a"); Return (VStr "b"); Raise IterationComplete]
   ∧ fst (__aexit__ None c) = Return tt
   ∧ aclose_calls (_aiterator (snd (__aexit__ None c))) = 0
   ∧ aclose_calls (_aiterator (snd (__aexit__ None c))) ≠ 1)
  ∧ (fst (drain 2 (snd (__aenter__ (init plain))))
     = [Return (VInt 0); Raise IterationComplete]
     ∧ fst (__aexit__ None c') = Return tt
     ∧ aclose_calls (_aiterator (snd (__aexit__ None c'))) ≠ 1).
Proof. vm_compute. repeat split; lia. Qed.

(** ** Errors of the wrapped iterator *)

(** C2, as the code has it: when the [length items + 1]-th pull raises an
    instance [e] of [Exception] (other than the exhaustion signal), the
    calls of [__anext__] return the items before it and the next call
    raises [e] as it leaves the coroutine: [e] itself, unless [e] is a
    [StopIteration], in place of which the [raise exc] of line 200 ends in
    the [RuntimeError] "coroutine raised StopIteration".  The context is
    then [_EXHAUSTED] and stays so under further calls of [__anext__], each
    of which raises [StopAsyncIteration] and leaves the context, the
    wrapped iterator included, untouched: the error is raised once and the
    failed pull is not retried. *)
Theorem exception_raised_once
  (it : aiterator) (items : list value) (e : exn) (rest : list pull) :
  has_anext it = true →
  pulls it = ((Yield <$> items) ++ Throw e :: rest)%list →
  is_Exception e = true → e ≠ StopAsyncIteration →
  __aenter__ (init it) = (Return tt, running it [])
  ∧ ∃ c,
      drain (length items + 1) (running it [])
      = ((Return <$> items)
         ++ [Raise (if decide (e = StopIteration)
                    then RuntimeError "coroutine raised StopIteration"
                    else e)], c)%list
      ∧ _state c = _EXHAUSTED
      ∧ pulls (_aiterator c) = rest
      ∧ ∀ n, drain n c = (replicate n (Raise IterationComplete), c).
Proof.
  intros Ha Hp He Hne. split; [done|].
  rewrite drain_app, (drain_yields items it (Throw e :: rest)) by done. simpl.
  rewrite (__anext___error _ e rest) by done.
  assert (coroutine_raises e
          = if decide (e = StopIteration)
            then RuntimeError "coroutine raised StopIteration" else e) as <-.
  { by destruct e. }
  eexists. split; [done|]. split; [done|]. split; [done|].
  intros n. by apply drain_exhausted.
Qed.

(** The scenario of the specification: the second pull raises
    [ValueError("boom")]. *)
Lemma exception_raised_once_witness :
  let it := async_generator [Yield (VStr "a"); Throw (UserException "boom");
                             Yield (VStr "never")] (Some None) false in
  ∃ c, drain 2 (running it []) = ([Return (VStr "a"); Raise (UserException "boom")], c)
       ∧ _state c = _EXHAUSTED
       ∧ drain 2 c = ([Raise StopAsyncIteration; Raise StopAsyncIteration], c).
Proof.
  intros it.
  destruct (exception_raised_once it [VStr "a"] (UserException "boom")
              [Yield (VStr "never")])
    as (_ & c & Hdrain & Hstate & _ & Hnext); [reflexivity..|discriminate|].
  exists c. split; [exact Hdrain|]. split; [exact Hstate|exact (Hnext 2)].
Defined.

(** The claim of C2 fails as stated: an error that is not an instance of
    [Exception] (here [KeyboardInterrupt], raised by the second pull) is not
    raised by [__anext__], which signals exhaustion instead; and a
    [StopIteration], which is an instance of [Exception], is not raised by
    [__anext__] either, which raises a [RuntimeError] in its place. *)
Lemma base_exception_not_raised_by_anext :
  let it := async_generator [Yield (VStr "a"); Throw KeyboardInterrupt]
              (Some None) false in
  let it' := {| type_name := "Countdown"; aiter_method := Some Self;
                has_anext := true;
                pulls := [Yield (VStr "a"); Throw StopIteration];
                aclose := None; ag_running := false; aclose_calls := 0 |} in
  (has_anext it = true
   ∧ fst (drain 2 (snd (__aenter__ (init it))))
     = [Return (VStr "a"); Raise StopAsyncIteration]
   ∧ fst (drain 2 (snd (__aenter__ (init it))))
     ≠ [Return (VStr "a"); Raise KeyboardInterrupt])
  ∧ (has_anext it' = true ∧ is_Exception StopIteration = true
     ∧ fst (drain 2 (snd (__aenter__ (init it'))))
       = [Return (VStr "a");
          Raise (RuntimeError "coroutine raised StopIteration")]
     ∧ fst (drain 2 (snd (__aenter__ (init it'))))
       ≠ [Return (VStr "a"); Raise StopIteration]).
Proof. vm_compute. repeat split; discriminate. Qed.

Lemma handshake_awaiting it w :
  (set_state _BUSY >> sync_send) (running it w) = (Return tt, awaiting it w).
Proof. done. Qed.

(** C10: an error of the next-item step that is not an instance of
    [Exception] leaves the loop of the producer without anything being
    sent on the item channel; the close attempt of the [finally] clause
    still runs; the task ends with the error (or with the error of the
    close hook); and the waiting [__anext__] sees the item channel closed,
    so that it raises [StopAsyncIteration], not the error. *)
Theorem base_exception_escapes_producer
  (it : aiterator) (e : exn) (ps : list pull) (w : list string) :
  has_anext it = true → pulls it = Throw e :: ps → is_Exception e = false →
  (∃ c, while_True 1 (awaiting it w) = (Raise e, c)
        ∧ _item_channel c = compat.open_item_channel)
  ∧ (∃ c, _task_target (awaiting it w)
          = (Raise (default e (task_raised (Return tt) it)), c)
          ∧ item_slot (_item_channel c) = None
          ∧ aclose_calls (_aiterator c)
            = aclose_calls it + (if close_attempted it then 1 else 0))
  ∧ (∃ c, __anext__ (running it w) = (Raise StopAsyncIteration, c)
          ∧ Raise StopAsyncIteration ≠ @Raise value e
          ∧ task (_task_group c)
            = Finished (Some (default e (task_raised (Return tt) it)))
          ∧ ∀ n, fst (drain n c) = replicate n (Raise StopAsyncIteration)).
Proof.
  intros Ha Hp He. split; [|split].
  - destruct e; try done; destruct it; simpl in *; subst; by eexists.
  - destruct e; try done;
      destruct it as [tn am ha ps0 [[e'|]|] [] n0]; simpl in *; subst;
      try destruct e'; (eexists; split; [reflexivity|]; split; simpl; [done|lia]).
  - rewrite (__anext___base_exception it e ps) by done.
    assert (coroutine_raises e = e) as Hid by (by destruct e).
    exists (exhausted (closed_aiterator (set_pulls ps it))
              (task_raised (Raise e) it) w).
    split; [done|]. split; [by destruct e|]. split.
    + simpl. unfold task_raised. rewrite Hid.
      by destruct (close_outcome it).
    + intros n. by rewrite drain_exhausted.
Qed.

Lemma base_exception_escapes_producer_witness :
  let it := async_generator [Throw KeyboardInterrupt] (Some None) false in
  ∃ c, __anext__ (running it []) = (Raise StopAsyncIteration, c)
       ∧ task (_task_group c) = Finished (Some KeyboardInterrupt)
       ∧ aclose_calls (_aiterator c) = 1.
Proof.
  intros it.
  destruct (base_exception_escapes_producer it KeyboardInterrupt [] [])
    as (_ & _ & c & Hnext & _ & Htask & _); [reflexivity..|].
  exists c. split; [exact Hnext|]. split; [exact Htask|].
  injection Hnext as <-. reflexivity.
Defined.

(** ** The close attempt on every exit of the loop *)

Lemma _task_target_close_calls c :
  aclose_calls (_aiterator (snd (_task_target c)))
  = aclose_calls (_aiterator c)
    + (if fst (_task_target c) is Blocked then 0
       else if close_attempted (_aiterator c) then 1 else 0).
Proof.
  rewrite _task_target_eq.
  pose proof (producer_loop_close_view c) as Hview.
  destruct (producer_loop c) as [r c'] eqn:Hloop. simpl in Hview.
  unfold close_view in Hview. injection Hview as Hhook Hrun Hcalls.
  assert (close_attempted (_aiterator c') = close_attempted (_aiterator c)) as Hgate.
  { unfold close_attempted. by rewrite Hhook, Hrun. }
  assert (close_outcome (_aiterator c') = close_outcome (_aiterator c)) as Hout.
  { unfold close_outcome. by rewrite Hhook, Hrun. }
  pose proof (close_outcome_not_blocked (_aiterator c)) as Hnb.
  destruct r as [[]|e|]; rewrite ?async_def_eq; simpl;
    rewrite ?aclose_calls_closed, ?Hgate, ?Hout, ?Hcalls;
    try lia;
    destruct (close_outcome (_aiterator c)) as [[]|e'|]; done.
Qed.

Lemma _task_target_close_error c e :
  close_outcome (_aiterator c) = Raise e →
  fst (_task_target c) ≠ Blocked →
  fst (_task_target c) = Raise (coroutine_raises e).
Proof.
  rewrite _task_target_eq.
  pose proof (producer_loop_close_view c) as Hview.
  destruct (producer_loop c) as [r c'] eqn:Hloop. simpl in Hview.
  unfold close_view in Hview. injection Hview as Hhook Hrun Hcalls.
  assert (close_outcome (_aiterator c') = close_outcome (_aiterator c)) as Hout.
  { unfold close_outcome. by rewrite Hhook, Hrun. }
  intros He. destruct r as [[]|e0|]; rewrite ?async_def_eq; simpl;
    rewrite ?Hout, ?He; done.
Qed.

Lemma _task_target_delivered c :
  task (_task_group c) = Delivered → fst (_task_target c) ≠ Blocked.
Proof.
  intros Ht. rewrite _task_target_eq. unfold producer_loop. rewrite Ht.
  rewrite async_def_eq. cbn [fst]. apply coroutine_result_not_blocked.
  unfold shutdown. cbn [fst].
  pose proof (close_outcome_not_blocked (_aiterator c)) as Hnb.
  by destruct (close_outcome (_aiterator c)).
Qed.

(** C3, as the code has it: whenever a run of the producer task ends (the
    task is not suspended again), after a drained iterator, an error or a
    cancellation, the close hook was called once if the iterator exposes
    one and does not report itself running, and was not called otherwise
    (nor while the task is suspended); after an error of the iterator was
    handed over, the run that follows ends.  The call is shielded: with
    cancellation requested, an await of the task raises [CancelledError]
    but the close attempt runs as without it.  A [GeneratorExit] of the
    hook is swallowed; any other error of the hook is raised by the
    [finally] clause and ends the task (a [StopIteration] as the
    [RuntimeError] of the coroutine); the join of [__aexit__] raises it,
    unless it is a [CancelledError]: the join takes that for the
    cancellation of the task, and [__aexit__] returns. *)
Theorem close_attempt_on_exit (c : context) :
  aclose_calls (_aiterator (snd (_task_target c)))
  = aclose_calls (_aiterator c)
    + (if fst (_task_target c) is Blocked then 0
       else if close_attempted (_aiterator c) then 1 else 0)
  ∧ (task (_task_group c) = Delivered → fst (_task_target c) ≠ Blocked)
  ∧ (cancel_called (_task_group c) = true →
     fst (checkpoint false c) = Raise CancelledError
     ∧ fst (_task_target c) ≠ Blocked
     ∧ terminate_aiterator c
       = (close_outcome (_aiterator c),
          set_aiterator (closed_aiterator (_aiterator c)) c))
  ∧ (aclose (_aiterator c) = Some (Some GeneratorExit) →
     fst (terminate_aiterator c) = Return tt)
  ∧ (∀ e, aclose (_aiterator c) = Some (Some e) →
          ag_running (_aiterator c) = false → e ≠ GeneratorExit →
          fst (terminate_aiterator c) = Raise e
          ∧ (fst (_task_target c) ≠ Blocked →
             fst (_task_target c) = Raise (coroutine_raises e))
          ∧ ∀ typ w, fst (__aexit__ typ (running (_aiterator c) w))
                     = if decide (e = CancelledError) then Return tt
                       else Raise (coroutine_raises e)).
Proof.
  split; [apply _task_target_close_calls|].
  split; [apply _task_target_delivered|]. split; [|split].
  - intros Hc. split; [|split].
    + unfold checkpoint. by rewrite Hc.
    + by apply _task_target_cancelled.
    + apply terminate_aiterator_eq.
  - intros Hhook. rewrite terminate_aiterator_eq. simpl.
    unfold close_outcome. rewrite Hhook. by destruct (ag_running _).
  - intros e Hhook Hrun Hne.
    assert (close_outcome (_aiterator c) = Raise e) as Hout.
    { unfold close_outcome. rewrite Hhook, Hrun. by rewrite decide_False. }
    split; [by rewrite terminate_aiterator_eq|].
    split; [by apply _task_target_close_error|].
    intros typ w.
    destruct (__aexit___running typ (_aiterator c) w) as [_ ->].
    by rewrite Hout.
Qed.

(** A cancelled task whose iterator has a failing close hook: the hook is
    called under the shield and its error is what [__aexit__] raises. *)
Lemma close_attempt_on_exit_witness :
  let it := async_generator [Yield (VInt 1)] (Some (Some (UserException "boom"))) false in
  let c := snd (cancel_scope_cancel (running it [])) in
  fst (checkpoint false c) = Raise CancelledError
  ∧ fst (_task_target c) = Raise (UserException "boom")
  ∧ aclose_calls (_aiterator (snd (_task_target c))) = 1
  ∧ fst (__aexit__ None (running it [])) = Raise (UserException "boom").
Proof.
  intros it c.
  destruct (close_attempt_on_exit c) as (Hcalls & _ & Hshield & _ & Herr).
  destruct (Hshield eq_refl) as (Hcheck & Hleft & _).
  destruct (Herr (UserException "boom") eq_refl eq_refl ltac:(discriminate))
    as (_ & Htask & Hexit).
  split; [exact Hcheck|]. split; [exact (Htask Hleft)|].
  split; [rewrite Hcalls; reflexivity|].
  exact (Hexit None []).
Defined.

(** The claim of C3 fails as stated: not every error of the close call
    other than [GeneratorExit] reaches the caller of [__aexit__].  A hook
    that raises [CancelledError] is called, its error leaves the [finally]
    clause and ends the task, and [__aexit__] returns as if nothing had
    failed. *)
Lemma cancelled_close_error_is_not_raised :
  let it := async_generator [Yield (VInt 1)] (Some (Some CancelledError)) false in
  close_attempted it = true
  ∧ CancelledError ≠ GeneratorExit
  ∧ fst (terminate_aiterator (running it [])) = Raise CancelledError
  ∧ aclose_calls (_aiterator (snd (__aexit__ None (running it [])))) = 1
  ∧ fst (__aexit__ None (running it [])) = Return tt
  ∧ fst (__aexit__ None (running it [])) ≠ Raise CancelledError.
Proof. vm_compute. repeat split; discriminate. Qed.

(** ** The wrapping entry point *)

Lemma isinstance_Instance σ ref k self cls :
  σ !! ref = Some (Instance k self) →
  isinstance σ ref cls = bool_decide (cls `suffix_of` k).
Proof.
  intros Hl. unfold isinstance. by rewrite (list_lookup_total_correct _ _ _ Hl).
Qed.

Lemma aiter_Instance σ ref k self :
  σ !! ref = Some (Instance k self) → aiter ref σ = (Return ref, σ).
Proof.
  intros Hl. unfold aiter. by rewrite (list_lookup_total_correct _ _ _ Hl).
Qed.

Lemma rewrap_fails (σ : store) (ref : loc) (k cls : context_class) self :
  σ !! ref = Some (Instance k self) →
  __init__ cls ref σ
  = (Raise (TypeError (repr σ ref +:+ " is already an AsyncIteratorContext")), σ)
  ∧ ¬ InvalidState (TypeError (repr σ ref +:+ " is already an AsyncIteratorContext")).
Proof.
  intros Hl. split; [|by intros [msg ?]].
  unfold __init__, bind, get, lift.
  rewrite (list_lookup_total_correct _ _ _ Hl). simpl.
  rewrite (isinstance_Instance _ _ _ _ _ Hl).
  rewrite bool_decide_true; [done|]. apply suffix_nil.
Qed.

(** C6, as the code has it: handing a context to the constructor again
    fails, with the store unchanged, but the error is a [TypeError] (the
    specification's [TypeMismatch]) that says that the object is already
    an [AsyncIteratorContext]; it is not a [RuntimeError]. *)
Theorem rewrap_raises_TypeError
  (σ : store) (ref : loc) (k cls : context_class) (self : context) :
  σ !! ref = Some (Instance k self) →
  __init__ cls ref σ
  = (Raise (TypeError (repr σ ref +:+ " is already an AsyncIteratorContext")), σ)
  ∧ TypeMismatch (TypeError (repr σ ref +:+ " is already an AsyncIteratorContext"))
  ∧ ¬ InvalidState (TypeError (repr σ ref +:+ " is already an AsyncIteratorContext")).
Proof.
  intros Hl. destruct (rewrap_fails σ ref k cls self Hl) as [Hinit Hnot].
  split; [done|]. split; [by eexists|done].
Qed.

Lemma rewrap_raises_TypeError_witness :
  let it := async_generator [Yield (VInt 1)] (Some None) false in
  let σ := [Plain it; Instance AsyncIteratorContext_cls (init it)] in
  fst (__init__ AsyncIteratorContext_cls 1 σ)
  = Raise (TypeError "<AsyncIteratorContext object at 1> is already an AsyncIteratorContext").
Proof.
  intros it σ.
  destruct (rewrap_raises_TypeError σ 1 AsyncIteratorContext_cls
              AsyncIteratorContext_cls (init it) eq_refl) as [-> _].
  reflexivity.
Defined.

(** The claim of C6 fails as stated: the error of the re-entrancy guard is
    no [InvalidState]. *)
Lemma rewrap_is_not_InvalidState :
  let it := async_generator [Yield (VInt 1)] (Some None) false in
  let σ := [Plain it; Instance AsyncIteratorContext_cls (init it)] in
  fst (__init__ AsyncIteratorContext_cls 1 σ)
  = Raise (TypeError "<AsyncIteratorContext object at 1> is already an AsyncIteratorContext")
  ∧ ¬ InvalidState (TypeError "<AsyncIteratorContext object at 1> is already an AsyncIteratorContext").
Proof. split; [reflexivity|]. by intros [msg ?]. Qed.

Lemma aiter_store aiterable σ : snd (aiter aiterable σ) = σ.
Proof. unfold aiter. by destruct (assert_async_iterable _). Qed.

(** C7, as the code has it: [aitercontext] hands back the iterator of its
    argument, the very reference, and leaves the store as it is, when that
    iterator is already an instance of the class [cls]; otherwise it calls
    the constructor of [cls] on the iterator: for an async iterator that is
    no context this allocates a new [_STANDBY] context around it, for a
    context of another class and for an object without [__anext__] it
    fails with [TypeError].  Wrapping what [aitercontext] returned gives
    the same reference again. *)
Theorem aitercontext_wraps_once
  (σ : store) (aiterable aiterator : loc) (cls : context_class) :
  aiter aiterable σ = (Return aiterator, σ) →
  (isinstance σ aiterator cls = true →
   aitercontext aiterable (ContextClass cls) σ = (Return aiterator, σ))
  ∧ (isinstance σ aiterator cls = false →
     aitercontext aiterable (ContextClass cls) σ = __init__ cls aiterator σ)
  ∧ (∀ it, σ !! aiterator = Some (Plain it) → has_anext it = true →
           aitercontext aiterable (ContextClass cls) σ
           = (Return (length σ), (σ ++ [Instance cls (init it)])%list))
  ∧ (∀ it, σ !! aiterator = Some (Plain it) → has_anext it = false →
           aitercontext aiterable (ContextClass cls) σ
           = (Raise (TypeError ("'" +:+ type_name it
                                +:+ "' object is not an async iterator")), σ))
  ∧ (∀ k self, σ !! aiterator = Some (Instance k self) →
               isinstance σ aiterator cls = false →
               aitercontext aiterable (ContextClass cls) σ
               = (Raise (TypeError (repr σ aiterator
                                    +:+ " is already an AsyncIteratorContext")), σ))
  ∧ (∀ r σ', aitercontext aiterable (ContextClass cls) σ = (Return r, σ') →
             aitercontext r (ContextClass cls) σ' = (Return r, σ')).
Proof.
  intros Hiter.
  assert (∀ b, isinstance σ aiterator cls = b →
               aitercontext aiterable (ContextClass cls) σ
               = if b then (Return aiterator, σ) else __init__ cls aiterator σ)
    as Hcases.
  { intros b Hb. unfold aitercontext. rewrite bind_eq, Hiter.
    rewrite bind_eq. unfold get at 1. cbv beta iota. rewrite Hb.
    by destruct b. }
  assert (∀ it, σ !! aiterator = Some (Plain it) →
                isinstance σ aiterator cls = false
                ∧ __init__ cls aiterator σ
                  = if has_anext it
                    then (Return (length σ), (σ ++ [Instance cls (init it)])%list)
                    else (Raise (TypeError ("'" +:+ type_name it
                                 +:+ "' object is not an async iterator")), σ))
    as Hplain.
  { intros it Hl. unfold isinstance, __init__, bind, get, lift, isinstance.
    rewrite (list_lookup_total_correct _ _ _ Hl). simpl.
    unfold assert_async_iterator, is_async_iterator. simpl.
    by destruct (has_anext it). }
  split; [intros Hb; by rewrite (Hcases _ Hb)|].
  split; [intros Hb; by rewrite (Hcases _ Hb)|].
  split.
  { intros it Hl Ha. destruct (Hplain it Hl) as [Hb Hinit].
    by rewrite (Hcases _ Hb), Hinit, Ha. }
  split.
  { intros it Hl Ha. destruct (Hplain it Hl) as [Hb Hinit].
    by rewrite (Hcases _ Hb), Hinit, Ha. }
  split.
  { intros k self Hl Hb. rewrite (Hcases _ Hb).
    by destruct (rewrap_fails σ aiterator k cls self Hl). }
  intros r σ' Hwrap.
  assert (∃ k self, σ' !! r = Some (Instance k self)
                    ∧ cls `suffix_of` k) as (k & self & Hl & Hsub).
  { destruct (isinstance σ aiterator cls) eqn:Hb;
      rewrite (Hcases _ eq_refl) in Hwrap.
    - injection Hwrap as <- <-. unfold isinstance in Hb.
      destruct (σ !! aiterator) as [[it|k self]|] eqn:Hl.
      + by rewrite (list_lookup_total_correct _ _ _ Hl) in Hb.
      + rewrite (list_lookup_total_correct _ _ _ Hl) in Hb.
        apply bool_decide_eq_true in Hb. eauto.
      + by rewrite list_lookup_total_alt, Hl in Hb.
    - revert Hwrap. unfold __init__, bind, get, lift.
      destruct (assert_async_iterator (σ !!! aiterator)) as [[]|e|]; [|done..].
      destruct (isinstance σ aiterator AsyncIteratorContext_cls); [done|].
      destruct (σ !!! aiterator) as [it|k self]; [|done].
      unfold modify, ret. intros [= <- <-].
      exists cls, (init it). split; [|done].
      rewrite lookup_app_r by done. by rewrite Nat.sub_diag. }
  unfold aitercontext. rewrite bind_eq, (aiter_Instance _ _ _ _ Hl).
  rewrite bind_eq. unfold get at 1. cbv beta iota.
  rewrite (isinstance_Instance _ _ _ _ _ Hl). by rewrite bool_decide_true.
Qed.

(** A stream whose [__aiter__] gives an existing context of a subclass. *)
Lemma aitercontext_wraps_once_witness :
  let it := async_generator [Yield (VInt 1)] (Some None) false in
  let stream := {| type_name := "Stream"; aiter_method := Some (Other 1);
                   has_anext := false; pulls := []; aclose := None;
                   ag_running := false; aclose_calls := 0 |} in
  let σ := [Plain stream; Instance ["streamcontext"] (init it); Plain it] in
  aitercontext 0 (ContextClass ["streamcontext"]) σ = (Return 1, σ)
  ∧ aitercontext 0 (ContextClass AsyncIteratorContext_cls) σ = (Return 1, σ)
  ∧ aitercontext 2 (ContextClass AsyncIteratorContext_cls) σ
    = (Return 3, (σ ++ [Instance AsyncIteratorContext_cls (init it)])%list).
Proof.
  intros it stream σ.
  destruct (aitercontext_wraps_once σ 0 1 ["streamcontext"] eq_refl) as (H1 & _).
  destruct (aitercontext_wraps_once σ 0 1 AsyncIteratorContext_cls eq_refl) as (H2 & _).
  destruct (aitercontext_wraps_once σ 2 2 AsyncIteratorContext_cls eq_refl)
    as (_ & _ & H3 & _).
  split; [exact (H1 eq_refl)|]. split; [exact (H2 eq_refl)|].
  exact (H3 it eq_refl eq_refl).
Defined.

(** The claim of C7 fails as stated: the iterator form of a plain
    [AsyncIteratorContext] is no instance of the subclass [streamcontext],
    and yet no new context is constructed around it: the constructor
    refuses it, and the store stays as it was. *)
Lemma aitercontext_refuses_other_context :
  let it := async_generator [Yield (VInt 1)] (Some None) false in
  let σ := [Plain it; Instance AsyncIteratorContext_cls (init it)] in
  aiter 1 σ = (Return 1, σ)
  ∧ isinstance σ 1 ["streamcontext"] = false
  ∧ aitercontext 1 (ContextClass ["streamcontext"]) σ
    = (Raise (TypeError "<AsyncIteratorContext object at 1> is already an AsyncIteratorContext"),
       σ).
Proof. by vm_compute. Qed.

(** ** Async / await helper functions *)

(** C9, as the code has it: the wrapper calls [fn] and awaits what it
    returned: it is [await_] of that object.  It returns a value only as
    the result of an awaitable that [fn] returned, never the value [fn]
    returned, and it suspends only as that awaitable suspends, possibly
    never.  For a function that returns anything that is not awaitable it
    raises a [TypeError] without suspending; what [fn] raises it raises
    without suspending, but for a [StopIteration], which leaves the
    coroutine as the [RuntimeError] "coroutine raised StopIteration": the
    wrapper never raises [StopIteration]. *)
Theorem async__awaits_what_fn_returns
  (fn : list value → result value) (args : list value) :
  (∀ obj, fn args = Return obj → async_ fn args = await_ obj)
  ∧ (∀ n v, async_ fn args = (n, Return v) →
            ∃ a, fn args = Return (VAwaitable a)
                 ∧ (a = Resolves n v ∨ (a = Fails n StopIteration ∧ v = VNone)))
  ∧ (∀ n r, async_ fn args = (n, r) → 0 < n →
            ∃ a, fn args = Return (VAwaitable a)
                 ∧ match a with Resolves m _ | Fails m _ => m end = n)
  ∧ (∀ v, fn args = Return v → (∀ a, v ≠ VAwaitable a) →
          async_ fn args
          = (0, Raise (TypeError ("object " +:+ value_type_name v
                                  +:+ " can't be used in 'await' expression"))))
  ∧ (∀ e, fn args = Raise e →
          async_ fn args
          = (0, Raise (if decide (e = StopIteration)
                       then RuntimeError "coroutine raised StopIteration"
                       else e)))
  ∧ (∀ n, async_ fn args ≠ (n, Raise StopIteration)).
Proof.
  unfold async_, await_. split; [by intros obj ->|].
  split; [|split; [|split; [|split]]].
  - intros n v. destruct (fn args) as [obj|e|]; [|by destruct e|done].
    destruct obj as [| | |[m v'|m e]]; try done.
    + intros [= <- <-]. eauto.
    + destruct e; try done. intros [= <- <-]. eauto.
  - intros n r. destruct (fn args) as [obj|e|]; simpl.
    + destruct obj as [| | |[m v'|m e]]; simpl;
        try (intros [= <- _]; lia).
      * intros [= <- _] _. eauto.
      * destruct e; intros [= <- _] _; eauto.
    + intros [= <- _]. lia.
    + intros [= <- _]. lia.
  - intros v -> Hv. destruct v; try done. by destruct (Hv a).
  - intros e ->. by destruct e.
  - intros n. destruct (fn args) as [obj|e|]; [|by destruct e|done].
    destruct obj as [| | |[m v'|m e]]; try done. by destruct e.
Qed.

Lemma async__awaits_what_fn_returns_witness :
  async_ (λ args, Return (VAwaitable (Resolves 2 (VInt 7)))) [VNone]
  = await_ (VAwaitable (Resolves 2 (VInt 7)))
  ∧ await_ (VAwaitable (Resolves 2 (VInt 7))) = (2, Return (VInt 7))
  ∧ async_ (λ args, Raise (UserException "boom")) [VNone]
    = (0, Raise (UserException "boom"))
  ∧ async_ (λ args, Raise StopIteration) [VNone]
    = (0, Raise (RuntimeError "coroutine raised StopIteration")).
Proof.
  split; [|split; [reflexivity|split]].
  - destruct (async__awaits_what_fn_returns
                (λ args, Return (VAwaitable (Resolves 2 (VInt 7)))) [VNone])
      as (H & _). exact (H _ eq_refl).
  - destruct (async__awaits_what_fn_returns
                (λ args, Raise (UserException "boom")) [VNone])
      as (_ & _ & _ & _ & H & _). exact (H _ eq_refl).
  - destruct (async__awaits_what_fn_returns
                (λ args, Raise StopIteration) [VNone])
      as (_ & _ & _ & _ & H & _). exact (H _ eq_refl).
Defined.

(** The claim of C9 fails as stated: for the plain function that returns
    the integer 3 the wrapper does not suspend and does not return 3; it
    raises [TypeError]. *)
Lemma async__of_plain_function_raises :
  let fn := λ args : list value, Return (VInt 3) in
  fn [] = Return (VInt 3)
  ∧ async_ fn []
    = (0, Raise (TypeError "object int can't be used in 'await' expression"))
  ∧ snd (async_ fn []) ≠ fn []
  ∧ ¬ 1 ≤ fst (async_ fn []).
Proof. simpl. repeat split; [discriminate|lia]. Qed.

(** * Further properties of the context *)

(** ** The life of an entered context *)

Lemma set_pulls_pulls it : set_pulls (pulls it) it = it.
Proof. by destruct it. Qed.

Lemma __aexit___running_eq typ it w :
  __aexit__ typ (running it w)
  = (match close_outcome it with
     | Raise e => if decide (e = CancelledError) then Return tt
                  else Raise (coroutine_raises e)
     | _ => Return tt
     end,
     finished (closed_aiterator it) (task_raised (Raise CancelledError) it) w).
Proof. destruct typ as [[]|]; by_cases_on_iterator it. Qed.

Lemma __aexit___exhausted_eq typ it raised w :
  __aexit__ typ (exhausted it raised w)
  = (match raised with
     | Some e => if decide (e = CancelledError) then Return tt
                 else Raise (coroutine_raises e)
     | None => Return tt
     end,
     finished it raised w).
Proof. destruct typ as [[]|], raised as [[]|]; done. Qed.

(** The join resumes a producer that has its close attempt before it. *)
Lemma __aexit___failed_eq typ it w :
  __aexit__ typ (failed it w)
  = (match close_outcome it with
     | Raise e => if decide (e = CancelledError) then Return tt
                  else Raise (coroutine_raises e)
     | _ => Return tt
     end,
     finished (closed_aiterator it) (task_raised (Return tt) it) w).
Proof. destruct typ as [[]|]; by_cases_on_iterator it. Qed.

(** The producer, resumed between the calls of the consumer, goes on only
    when it has its close attempt before it. *)
Lemma run_producer_running it w : run_producer (running it w) = running it w.
Proof. done. Qed.

Lemma run_producer_failed it w :
  run_producer (failed it w)
  = exhausted (closed_aiterator it) (task_raised (Return tt) it) w.
Proof. by_cases_on_iterator it. Qed.

Lemma run_producer_exhausted it raised w :
  run_producer (exhausted it raised w) = exhausted it raised w.
Proof. done. Qed.

Lemma run_producer_finished it raised w :
  run_producer (finished it raised w) = finished it raised w.
Proof. done. Qed.

(** One call of [__anext__] on an entered context, whatever the iterator
    does: the context stays entered, one pull further; or the iterator has
    failed, and the producer has its close attempt before it; or the
    producer task has ended; all after one pull at most. *)
Lemma __anext___running_cases it w :
  has_anext it = true →
  (∃ v ps, pulls it = Yield v :: ps
           ∧ __anext__ (running it w) = (Return v, running (set_pulls ps it) w))
  ∨ (∃ r, __anext__ (running it w)
          = (Raise r, failed (set_pulls (tail (pulls it)) it) w))
  ∨ (∃ r raised,
       __anext__ (running it w)
       = (Raise r, exhausted (closed_aiterator (set_pulls (tail (pulls it)) it))
                     raised w)).
Proof.
  intros Ha. destruct (pulls it) as [|[v|e] ps] eqn:Hp.
  - right. right. eexists _, _. by apply (__anext___stop it []).
  - left. eexists _, _. split; [done|]. by apply __anext___yield.
  - right. destruct (decide (e = StopAsyncIteration)) as [->|Hne].
    + right. eexists _, _.
      by apply (__anext___stop it (Throw StopAsyncIteration :: ps)).
    + destruct (is_Exception e) eqn:He.
      * left. eexists. by apply __anext___error.
      * right. eexists _, _. by apply __anext___base_exception.
Qed.

Lemma pulls_closed_set_pulls ps it :
  pulls (closed_aiterator (set_pulls ps it)) = ps.
Proof. apply closed_set_pulls. Qed.

Lemma suffix_tail {A} (ps qs : list A) :
  ps `suffix_of` qs → tail ps `suffix_of` qs.
Proof.
  intros Hps. etrans; [|done]. destruct ps; [done|].
  by apply suffix_cons_r.
Qed.

(** One event other than a call of [__aenter__] keeps the context in its
    life and advances the wrapped iterator by one pull at most, and only
    when the event is a call of [__anext__]. *)
Lemma lifecycle_step it0 w c ev :
  has_anext it0 = true → ev ≠ call enter → lifecycle it0 w c →
  lifecycle it0 w (occur ev c)
  ∧ length (pulls (_aiterator c))
    ≤ length (pulls (_aiterator (occur ev c)))
      + (if ev is call next then 1 else 0).
Proof.
  intros Ha Hev Hc. destruct ev as [[| |typ]|]; [done| | |]; unfold occur, perform.
  - destruct Hc as [ps Hps|ps Hps|ps raised Hps|ps raised Hps].
    + destruct (__anext___running_cases (set_pulls ps it0) w Ha)
        as [(v & ps' & Hp & ->)|[(r & ->)|(r & raised & ->)]]; simpl in *.
      * rewrite set_pulls_set_pulls. subst ps. split; [|simpl; lia].
        constructor. etrans; [|done]. by apply suffix_cons_r.
      * rewrite set_pulls_set_pulls.
        split; [|destruct ps; simpl; lia].
        constructor. by apply suffix_tail.
      * rewrite set_pulls_set_pulls, pulls_closed_set_pulls.
        split; [|destruct ps; simpl; lia].
        constructor. by apply suffix_tail.
    + rewrite __anext___exhausted by done. split; [by constructor|simpl; lia].
    + rewrite __anext___exhausted by done. split; [by constructor|simpl; lia].
    + rewrite __anext___finished by done. split; [by constructor|simpl; lia].
  - destruct Hc as [ps Hps|ps Hps|ps raised Hps|ps raised Hps].
    + rewrite __aexit___running_eq. simpl.
      rewrite pulls_closed_set_pulls. split; [by constructor|lia].
    + rewrite __aexit___failed_eq. simpl.
      rewrite pulls_closed_set_pulls. split; [by constructor|lia].
    + rewrite __aexit___exhausted_eq. simpl. split; [by constructor|lia].
    + rewrite __aexit___finished by done. split; [by constructor|simpl; lia].
  - destruct Hc as [ps Hps|ps Hps|ps raised Hps|ps raised Hps].
    + rewrite run_producer_running. split; [by constructor|lia].
    + rewrite run_producer_failed. simpl.
      rewrite pulls_closed_set_pulls. split; [by constructor|lia].
    + rewrite run_producer_exhausted. split; [by constructor|lia].
    + rewrite run_producer_finished. split; [by constructor|lia].
Qed.

Lemma history_snoc evs ev c : history (evs ++ [ev]) c = occur ev (history evs c).
Proof. unfold history. by rewrite foldl_app. Qed.

Lemma run_history ops c : run ops c = history (call <$> ops) c.
Proof.
  revert c. induction ops as [|op ops IH]; intros c; [done|].
  unfold run, history in *. simpl. apply IH.
Qed.

Lemma lifecycle_history it0 w evs :
  has_anext it0 = true → Forall (λ ev, ev ≠ call enter) evs →
  lifecycle it0 w (history evs (running it0 w)).
Proof.
  intros Ha. induction evs as [|ev evs IH] using rev_ind; intros Hevs.
  - simpl. rewrite <- (set_pulls_pulls it0) at 2. by constructor.
  - apply Forall_app in Hevs as [Hevs Hev]. apply Forall_inv in Hev.
    rewrite history_snoc. by apply lifecycle_step; [..|apply IH].
Qed.

Lemma run_snoc ops op c : run (ops ++ [op]) c = perform op (run ops c).
Proof. unfold run. by rewrite foldl_app. Qed.

Lemma nexts_snoc ops op :
  nexts (ops ++ [op]) = nexts ops + (if op is next then 1 else 0).
Proof.
  induction ops as [|op' ops IH]; simpl.
  - by destruct op.
  - destruct op'; simpl; rewrite IH; lia.
Qed.

Lemma lifecycle_run it0 w ops :
  has_anext it0 = true → Forall (λ op, op ≠ enter) ops →
  lifecycle it0 w (run ops (running it0 w))
  ∧ length (pulls it0)
    ≤ length (pulls (_aiterator (run ops (running it0 w)))) + nexts ops.
Proof.
  intros Ha. induction ops as [|op ops IH] using rev_ind; intros Hops.
  - simpl. split; [|lia].
    rewrite <- (set_pulls_pulls it0) at 2. by constructor.
  - apply Forall_app in Hops as [Hops Hop]. apply Forall_inv in Hop.
    destruct (IH Hops) as [Hlife Hlen].
    rewrite run_snoc, nexts_snoc.
    assert (call op ≠ call enter) as Hev by congruence.
    destruct (lifecycle_step it0 w _ (call op) Ha Hev Hlife) as [Hlife' Hstep].
    simpl in Hlife', Hstep. split; [done|].
    destruct op; simpl in *; lia.
Qed.

(** X1: the close hook is called at most once over the life of an entered
    context, whenever the scheduler lets the producer run: over any
    sequence of [__anext__] and [__aexit__] calls, with the producer task
    resumed in between any number of times, the hook has not been invoked
    as long as the context is [_RUNNING], it has been invoked at most once
    at any time, and it has been invoked exactly once (if the iterator
    exposes one and does not report itself running, and not at all
    otherwise) once the producer task has ended, and so once the context
    is [_FINISHED]; the hook and the running flag of the iterator are
    never changed. *)
Theorem close_hook_called_at_most_once
  (it0 : aiterator) (w : list string) (evs : list event) :
  has_anext it0 = true → Forall (λ ev, ev ≠ call enter) evs →
  let c := history evs (running it0 w) in
  let once := if close_attempted it0 then 1 else 0 in
  aclose_calls it0 ≤ aclose_calls (_aiterator c) ≤ aclose_calls it0 + once
  ∧ (_state c = _RUNNING → aclose_calls (_aiterator c) = aclose_calls it0)
  ∧ (∀ raised, task (_task_group c) = Finished raised →
               aclose_calls (_aiterator c) = aclose_calls it0 + once)
  ∧ (_state c = _FINISHED →
     aclose_calls (_aiterator c) = aclose_calls it0 + once)
  ∧ aclose (_aiterator c) = aclose it0
  ∧ ag_running (_aiterator c) = ag_running it0.
Proof.
  intros Ha Hevs c once.
  pose proof (lifecycle_history it0 w evs Ha Hevs) as Hlife.
  fold c in Hlife. clearbody c.
  destruct Hlife as [ps Hps|ps Hps|ps raised Hps|ps raised Hps]; simpl.
  - repeat split; (done || lia).
  - repeat split; (done || lia).
  - destruct (closed_set_pulls ps it0) as [-> _]. fold once.
    unfold closed_aiterator.
    destruct (close_attempted _); repeat split; (done || lia).
  - destruct (closed_set_pulls ps it0) as [-> _]. fold once.
    unfold closed_aiterator.
    destruct (close_attempted _); repeat split; (done || lia).
Qed.

(** The second pull fails; the producer is resumed before the consumer
    leaves the context. *)
Lemma close_hook_called_at_most_once_witness :
  let it := async_generator [Yield (VInt 1); Throw (UserException "boom")]
              (Some None) false in
  let evs := [call next; call next; resume_producer; call (exit None);
              resume_producer; call (exit None)] in
  let c := history evs (running it []) in
  let once := if close_attempted it then 1 else 0 in
  0 ≤ aclose_calls (_aiterator c) ≤ 0 + once
  ∧ (_state c = _RUNNING → aclose_calls (_aiterator c) = 0)
  ∧ (∀ raised, task (_task_group c) = Finished raised →
               aclose_calls (_aiterator c) = 0 + once)
  ∧ (_state c = _FINISHED → aclose_calls (_aiterator c) = 0 + once)
  ∧ aclose (_aiterator c) = Some None
  ∧ ag_running (_aiterator c) = false.
Proof.
  intros it evs.
  apply (close_hook_called_at_most_once it [] evs);
    [reflexivity|repeat constructor; discriminate].
Defined.

(** X2: the context pulls on demand.  Over any sequence of [__anext__] and
    [__aexit__] calls on an entered context the wrapped iterator is only
    ever advanced along its own sequence of items, by one pull at most for
    each call of [__anext__]; [__aexit__] pulls nothing, so the items that
    were not asked for are left in the iterator. *)
Theorem iterator_pulled_on_demand
  (it0 : aiterator) (w : list string) (ops : list operation) :
  has_anext it0 = true → Forall (λ op, op ≠ enter) ops →
  let it := _aiterator (run ops (running it0 w)) in
  pulls it `suffix_of` pulls it0
  ∧ length (pulls it0) ≤ length (pulls it) + nexts ops.
Proof.
  intros Ha Hops it. destruct (lifecycle_run it0 w ops Ha Hops) as [Hlife Hlen].
  split; [|done]. subst it.
  destruct Hlife as [ps Hps|ps Hps|ps raised Hps|ps raised Hps]; simpl;
    by rewrite ?pulls_closed_set_pulls.
Qed.

Lemma iterator_pulled_on_demand_witness :
  let it0 := async_generator [Yield (VInt 1); Yield (VInt 2); Yield (VInt 3)]
               (Some None) false in
  let ops := [next; exit None; next] in
  let it := _aiterator (run ops (running it0 [])) in
  pulls it `suffix_of` pulls it0
  ∧ length (pulls it0) ≤ length (pulls it) + nexts ops.
Proof.
  intros it0 ops.
  apply (iterator_pulled_on_demand it0 [] ops);
    [reflexivity|repeat constructor; discriminate].
Defined.

(** X3: between the calls of [__anext__] and [__aexit__] on an entered
    context, whenever the scheduler lets the producer run in between, the
    handshake is at rest: the context is [_RUNNING], [_EXHAUSTED] or
    [_FINISHED], never [_BUSY], and no demand token and no item is left in
    a channel.  While the context is [_RUNNING] the producer is parked in
    [receive()] and the item channel is open; once it is [_FINISHED] the
    producer task has ended and both channels are closed. *)
Theorem handshake_at_rest_between_calls
  (it0 : aiterator) (w : list string) (evs : list event) :
  has_anext it0 = true → Forall (λ ev, ev ≠ call enter) evs →
  let c := history evs (running it0 w) in
  (_state c = _RUNNING ∨ _state c = _EXHAUSTED ∨ _state c = _FINISHED)
  ∧ demand (_sync_channel c) = false
  ∧ item_slot (_item_channel c) = None
  ∧ (_state c = _RUNNING →
     task (_task_group c) = Parked
     ∧ item_sender_closed (_item_channel c) = false)
  ∧ (_state c = _FINISHED →
     (∃ raised, task (_task_group c) = Finished raised)
     ∧ item_sender_closed (_item_channel c) = true
     ∧ sync_sender_closed (_sync_channel c) = true).
Proof.
  intros Ha Hevs c.
  pose proof (lifecycle_history it0 w evs Ha Hevs) as Hlife.
  fold c in Hlife. clearbody c.
  destruct Hlife as [ps Hps|ps Hps|ps raised Hps|ps raised Hps]; simpl;
    repeat split; eauto; done.
Qed.

Lemma handshake_at_rest_between_calls_witness :
  let it := async_generator [Yield (VInt 1); Throw (UserException "boom")]
              None false in
  let c := history [call next; resume_producer; call next; call next]
             (running it []) in
  (_state c = _RUNNING ∨ _state c = _EXHAUSTED ∨ _state c = _FINISHED)
  ∧ demand (_sync_channel c) = false
  ∧ item_slot (_item_channel c) = None
  ∧ (_state c = _RUNNING →
     task (_task_group c) = Parked
     ∧ item_sender_closed (_item_channel c) = false)
  ∧ (_state c = _FINISHED →
     (∃ raised, task (_task_group c) = Finished raised)
     ∧ item_sender_closed (_item_channel c) = true
     ∧ sync_sender_closed (_sync_channel c) = true).
Proof.
  intros it.
  apply (handshake_at_rest_between_calls it []
           [call next; resume_producer; call next; call next]);
    [reflexivity|repeat constructor; discriminate].
Defined.

(** ** Leaving early, and leaving a context that was never entered *)

Lemma close_outcome_set_pulls ps it :
  close_outcome (set_pulls ps it) = close_outcome it.
Proof. done. Qed.

Lemma run_finished ops c : _state c = _FINISHED → run ops c = c.
Proof.
  intros Hs. induction ops as [|op ops IH]; [done|]. unfold run. simpl.
  destruct (finished_is_terminal c op Hs) as [-> _]. apply IH.
Qed.

(** X4: leaving the context in the middle of the iteration.  After the
    first items were taken, [__aexit__] cancels the parked producer: the
    remaining items are not pulled, the close hook is invoked once (if the
    iterator exposes one and does not report itself running), the context
    is [_FINISHED], and the call returns unless the hook raised an error,
    which it then raises (as the error left the coroutine of the producer:
    a [StopIteration] as a [RuntimeError]); all this whatever exception,
    if any, left the block. *)
Theorem early_exit_closes_without_pulling
  (it : aiterator) (items : list value) (rest : list pull)
  (typ : option exn) (w : list string) :
  has_anext it = true →
  pulls it = ((Yield <$> items) ++ rest)%list →
  ∃ c, drain (length items) (running it w) = (Return <$> items, c)
       ∧ _state c = _RUNNING
       ∧ aclose_calls (_aiterator c) = aclose_calls it
       ∧ _state (snd (__aexit__ typ c)) = _FINISHED
       ∧ pulls (_aiterator (snd (__aexit__ typ c))) = rest
       ∧ aclose_calls (_aiterator (snd (__aexit__ typ c)))
         = aclose_calls it + (if close_attempted it then 1 else 0)
       ∧ fst (__aexit__ typ c)
         = match close_outcome it with
           | Raise e => if decide (e = CancelledError) then Return tt
                        else Raise (coroutine_raises e)
           | _ => Return tt
           end.
Proof.
  intros Ha Hp. eexists. split; [by apply drain_yields|].
  rewrite __aexit___running_eq. simpl.
  destruct (closed_set_pulls rest it) as [-> ->].
  by rewrite close_outcome_set_pulls.
Qed.

Lemma early_exit_closes_without_pulling_witness :
  let it := async_generator [Yield (VInt 1); Yield (VInt 2); Yield (VInt 3)]
              (Some None) false in
  ∃ c, drain 1 (running it []) = ([Return (VInt 1)], c)
       ∧ _state c = _RUNNING
       ∧ aclose_calls (_aiterator c) = 0
       ∧ _state (snd (__aexit__ (Some (UserException "Boom")) c)) = _FINISHED
       ∧ pulls (_aiterator (snd (__aexit__ (Some (UserException "Boom")) c)))
         = [Yield (VInt 2); Yield (VInt 3)]
       ∧ aclose_calls (_aiterator (snd (__aexit__ (Some (UserException "Boom")) c)))
         = 0 + 1
       ∧ fst (__aexit__ (Some (UserException "Boom")) c) = Return tt.
Proof.
  intros it.
  exact (early_exit_closes_without_pulling it [VInt 1]
           [Yield (VInt 2); Yield (VInt 3)] (Some (UserException "Boom")) []
           eq_refl eq_refl).
Defined.

(** X5: an error of the close hook does not reach the caller of
    [__anext__].  When the iterator is exhausted and its close hook raises
    [e] (other than [GeneratorExit], which is swallowed), [__anext__]
    still raises [StopAsyncIteration], with the hook invoked once; the
    error is raised by the [__aexit__] that follows (as it left the
    coroutine of the producer: a [StopIteration] as a [RuntimeError]),
    once: a further [__aexit__] returns. *)
Theorem close_error_raised_by_aexit
  (it : aiterator) (e : exn) (typ typ' : option exn) (w : list string) :
  has_anext it = true → signals_exhaustion (pulls it) →
  aclose it = Some (Some e) → ag_running it = false →
  e ≠ GeneratorExit → e ≠ CancelledError →
  ∃ c, __anext__ (running it w) = (Raise StopAsyncIteration, c)
       ∧ aclose_calls (_aiterator c) = aclose_calls it + 1
       ∧ fst (__aexit__ typ c) = Raise (coroutine_raises e)
       ∧ _state (snd (__aexit__ typ c)) = _FINISHED
       ∧ _aiterator (snd (__aexit__ typ c)) = _aiterator c
       ∧ fst (__aexit__ typ' (snd (__aexit__ typ c))) = Return tt.
Proof.
  intros Ha Hstop Hhook Hrun Hge Hce. eexists.
  split; [by apply (__anext___stop it (pulls it))|].
  assert (close_outcome it = Raise e) as Hout.
  { unfold close_outcome. rewrite Hhook, Hrun. by rewrite decide_False. }
  assert (close_attempted it = true) as Hgate.
  { unfold close_attempted. by rewrite Hhook, Hrun. }
  rewrite __aexit___exhausted_eq. simpl.
  destruct (closed_set_pulls (tail (pulls it)) it) as [-> _].
  rewrite Hgate. unfold task_raised. rewrite Hout.
  rewrite decide_False by (by destruct e).
  rewrite coroutine_raises_idemp. simpl.
  repeat split; try done.
Qed.

Lemma close_error_raised_by_aexit_witness :
  let it := async_generator [] (Some (Some (UserException "CloseFailed")))
              false in
  ∃ c, __anext__ (running it []) = (Raise StopAsyncIteration, c)
       ∧ aclose_calls (_aiterator c) = 0 + 1
       ∧ fst (__aexit__ None c) = Raise (UserException "CloseFailed")
       ∧ _state (snd (__aexit__ None c)) = _FINISHED
       ∧ _aiterator (snd (__aexit__ None c)) = _aiterator c
       ∧ fst (__aexit__ None (snd (__aexit__ None c))) = Return tt.
Proof.
  intros it.
  apply (close_error_raised_by_aexit it (UserException "CloseFailed")
           None None []); [reflexivity|exact I|reflexivity|reflexivity|..];
    discriminate.
Defined.

(** X6: a context that is left without having been entered or iterated
    never touches the iterator it wraps: [__aexit__] sets it [_FINISHED]
    with no producer task to join, no item is pulled and the close hook is
    not invoked, then or under any later operation. *)
Theorem exit_before_enter_never_closes
  (it : aiterator) (typ : option exn) (ops : list operation) :
  let c := run ops (snd (__aexit__ typ (init it))) in
  _state c = _FINISHED
  ∧ _aiterator c = it
  ∧ task (_task_group c) = NotSpawned
  ∧ warned c = [].
Proof.
  intros c. subst c.
  assert (_state (snd (__aexit__ typ (init it))) = _FINISHED) as Hs
    by apply __aexit___finishes.
  rewrite (run_finished _ _ Hs).
  by destruct typ as [[]|].
Qed.

(** ** The warning of unsafe iteration *)

(** Only line 169 writes to the warnings: the producer task, the channels,
    the task group, [__aenter__] and [__aexit__] leave them alone. *)
Section warned_untouched.

Local Ltac leaf :=
  let c := fresh "c" in
  intros c; destruct c; simpl;
  repeat (match goal with
          | |- context [match ?x with _ => _ end] => destruct x
          | |- context [if ?x then _ else _] => destruct x
          end; simpl); done.

Local Ltac frame lemmas :=
  repeat first [ lemmas | apply preserves_ret | apply preserves_raise
               | apply preserves_blocked | apply preserves_get
               | apply preserves_bind; [|intros ?] ].

Lemma set_state_warned s : preserves warned (set_state s).
Proof. by apply preserves_modify. Qed.

Lemma checkpoint_warned shield : preserves warned (checkpoint shield).
Proof. unfold checkpoint. leaf. Qed.

Lemma sync_receive_warned : preserves warned sync_receive.
Proof.
  apply preserves_bind; [apply checkpoint_warned|intros _]. leaf.
Qed.

Lemma item_send_warned msg : preserves warned (item_send msg).
Proof.
  apply preserves_bind; [apply checkpoint_warned|intros _]. leaf.
Qed.

Lemma on_aiterator_warned {A} (m : M aiterator A) :
  preserves warned (on_aiterator m).
Proof. intros c. unfold on_aiterator. by destruct (m _). Qed.

Lemma while_True_warned rounds : preserves warned (while_True rounds).
Proof.
  induction rounds as [|n IH]; simpl;
    (apply preserves_bind; [apply sync_receive_warned|intros _]);
    (apply preserves_bind; [by apply propagate_item_frame|intros []]);
    auto using @preserves_ret, @preserves_blocked.
Qed.

Lemma terminate_aiterator_warned : preserves warned terminate_aiterator.
Proof. intros c. by rewrite terminate_aiterator_eq. Qed.

Lemma _task_target_warned : preserves warned _task_target.
Proof.
  apply preserves_async_def. repeat apply preserves_try_finally.
  - apply preserves_bind; [apply preserves_get|intros self].
    destruct (task _); auto using @preserves_ret, while_True_warned.
  - apply terminate_aiterator_warned.
  - by apply preserves_modify.
Qed.

Lemma run_producer_warned c : warned (run_producer c) = warned c.
Proof.
  unfold run_producer. destruct (task _); try done;
    pose proof (_task_target_warned c) as H;
    by destruct (_task_target c) as [[[]|e|] c'].
Qed.

Lemma item_receive_warned : preserves warned item_receive.
Proof.
  intros c. unfold item_receive.
  rewrite <- (run_producer_warned c).
  destruct (run_producer c) as [? ? ? [[msg|] []] ? ?]; done.
Qed.

Lemma sync_send_warned : preserves warned sync_send.
Proof. unfold sync_send. leaf. Qed.

Lemma task_group_aexit_warned typ : preserves warned (task_group_aexit typ).
Proof.
  apply preserves_bind; [|intros _].
  { destruct typ; [by apply preserves_modify|apply preserves_ret]. }
  apply preserves_bind; [|intros _].
  { apply preserves_modify, run_producer_warned. }
  apply preserves_bind; [apply preserves_get|intros c].
  destruct (task _) as [| | |[[]| ]];
    auto using @preserves_ret, @preserves_blocked, @preserves_raise.
Qed.

Lemma __aenter___warned : preserves warned __aenter__.
Proof.
  unfold __aenter__. apply preserves_async_def.
  apply preserves_bind; [apply preserves_get|intros self].
  repeat case_decide; try apply preserves_raise.
  frame ltac:(first [ apply set_state_warned
                    | by apply preserves_modify
                    | apply preserves_modify; intros ?;
                      by rewrite run_producer_warned ]).
  intros [? ? [[] ? ?] ? ? ?]; done.
Qed.

Lemma __aexit___warned typ : preserves warned (__aexit__ typ).
Proof.
  unfold __aexit__. apply preserves_async_def.
  apply preserves_try_finally; [|apply set_state_warned].
  apply preserves_bind; [apply preserves_get|intros self].
  case_decide; [apply preserves_ret|].
  repeat apply preserves_try_finally.
  - case_decide; [by apply preserves_modify|apply preserves_ret].
  - case_decide; apply task_group_aexit_warned.
  - by apply preserves_modify.
Qed.

(** [__anext__] on a context that is not [_STANDBY]. *)
Lemma __anext___warned c :
  _state c ≠ _STANDBY → warned (snd (__anext__ c)) = warned c.
Proof.
  intros Hs. unfold __anext__. rewrite async_def_eq. cbn [snd].
  rewrite bind_eq. unfold get at 1. cbv beta iota.
  rewrite decide_False by done.
  rewrite bind_eq. unfold ret at 1. cbv beta iota.
  revert c Hs.
  assert (preserves warned
    (let* self := get in
     if decide (_state self = _FINISHED)
     then raise (RuntimeError "AsyncIteratorContext is closed and cannot be iterated")
     else
     if decide (_state self = _EXHAUSTED)
     then raise StopAsyncIteration
     else
     (if decide (_state self ≠ _BUSY)
      then set_state _BUSY >> sync_send
      else ret tt) >>
     let* received :=
       try_except item_receive
         (λ exc, match exc with
                 | StopAsyncIteration =>
                     Some (set_state _EXHAUSTED >> raise StopAsyncIteration)
                 | _ => None
                 end) in
     match received with
     | (_, Some exc) => set_state _EXHAUSTED >> raise exc
     | (item, None) => set_state _RUNNING >> ret item
     end)) as Hrest; [|intros c _; apply Hrest].
  apply preserves_bind; [apply preserves_get|intros self].
  repeat case_decide; try apply preserves_raise.
  - apply preserves_bind; [|intros _].
    { frame ltac:(first [apply set_state_warned | apply sync_send_warned]). }
    apply preserves_bind.
    { apply preserves_try_except; [apply item_receive_warned|].
      intros e h He. destruct e; simplify_eq.
      frame ltac:(apply set_state_warned). }
    intros [item [exc|]]; frame ltac:(apply set_state_warned).
  - apply preserves_bind; [apply preserves_ret|intros _].
    apply preserves_bind.
    { apply preserves_try_except; [apply item_receive_warned|].
      intros e h He. destruct e; simplify_eq.
      frame ltac:(apply set_state_warned). }
    intros [item [exc|]]; frame ltac:(apply set_state_warned).
Qed.

End warned_untouched.

Lemma perform_not_standby op c :
  _state c ≠ _STANDBY →
  _state (perform op c) ≠ _STANDBY ∧ warned (perform op c) = warned c.
Proof.
  intros Hs. destruct op as [| |typ]; unfold perform.
  - split; [|apply __aenter___warned].
    destruct (decide (_state c = _RUNNING)) as [Hr|Hr].
    { rewrite __aenter___running by done. done. }
    destruct (decide (_state c = _FINISHED)) as [Hf|Hf].
    { rewrite __aenter___finished by done. done. }
    by rewrite __aenter___state.
  - split; [|by apply __anext___warned].
    pose proof (__anext___rank c) as Hrank.
    intros Heq. rewrite Heq in Hrank. destruct (_state c); simpl in *; try lia.
    done.
  - split; [|apply __aexit___warned].
    by destruct (__aexit___finishes typ c) as [-> _].
Qed.

Lemma run_not_standby ops c :
  _state c ≠ _STANDBY → warned (run ops c) = warned c.
Proof.
  revert c. induction ops as [|op ops IH]; intros c Hs; [done|].
  unfold run. simpl. destruct (perform_not_standby op c Hs) as [Hs' <-].
  by apply IH.
Qed.

Lemma __anext___init it :
  __anext__ (init it) = __anext__ (running it [unsafe_iteration_warning]).
Proof.
  destruct (__anext___standby (init it) eq_refl) as (r & c1 & Hm & _ & ->).
  vm_compute in Hm. by injection Hm as <- <-.
Qed.

(** X7: the warning "AsyncIteratorContext is iterated outside of its
    context" is issued exactly when the first operation on a new context is
    [__anext__], and then once: whatever operations follow, in any order
    and whatever their outcome, no other warning is issued. *)
Theorem unsafe_iteration_warns_once (it : aiterator) (ops : list operation) :
  warned (run ops (init it))
  = match ops with
    | next :: _ => ["AsyncIteratorContext is iterated outside of its context"]
    | _ => []
    end.
Proof.
  destruct ops as [|op ops]; [done|].
  change (run (op :: ops) (init it)) with (run ops (perform op (init it))).
  destruct op as [| |typ]; unfold perform.
  - by rewrite __aenter___init, run_not_standby.
  - rewrite __anext___init.
    rewrite run_not_standby, __anext___warned; try done.
    pose proof (__anext___rank (running it [unsafe_iteration_warning])) as Hr.
    intros Heq. rewrite Heq in Hr. simpl in Hr. lia.
  - rewrite run_not_standby, __aexit___warned; [done|].
    by destruct (__aexit___finishes typ (init it)) as [-> _].
Qed.

Lemma drain_init n it :
  drain (S n) (init it) = drain (S n) (running it [unsafe_iteration_warning]).
Proof. simpl. by rewrite __anext___init. Qed.

(** X8: iterating a new context without entering it enters it on the way:
    the calls of [__anext__] give what they give on the context entered
    with [__aenter__], and leave the same context, but for the warning. *)
Theorem unsafe_iteration_enters_implicitly (it : aiterator) (n : nat) :
  __aenter__ (init it) = (Return tt, running it [])
  ∧ drain (S n) (init it)
    = drain (S n)
        (running it ["AsyncIteratorContext is iterated outside of its context"]).
Proof. split; [done|apply drain_init]. Qed.

(** X9: the handshake is performed once for each item.  A call of
    [__anext__] that finds the context [_BUSY], the demand token of an
    interrupted call still pending, does not send a second token, which
    would block, and gives what the interrupted call was waiting for: the
    result and the context of [__anext__] on the [_RUNNING] context. *)
Theorem busy_context_skips_handshake (it : aiterator) (w : list string) :
  __anext__ (awaiting it w) = __anext__ (running it w)
  ∧ fst (sync_send (awaiting it w)) = Blocked
  ∧ (set_state _BUSY >> sync_send) (running it w) = (Return tt, awaiting it w).
Proof. done. Qed.

(** X10: a context that is iterated to the end closes its iterator also
    when it was never entered: the calls of [__anext__] on the new context
    give the items in order, then [StopAsyncIteration], and by then the
    close hook was invoked once (if the iterator exposes one and does not
    report itself running), with one warning issued. *)
Theorem unsafe_full_iteration_closes
  (it : aiterator) (items : list value) (rest : list pull) :
  has_anext it = true →
  pulls it = ((Yield <$> items) ++ rest)%list →
  signals_exhaustion rest →
  ∃ c, drain (length items + 1) (init it)
       = ((Return <$> items) ++ [Raise StopAsyncIteration], c)%list
       ∧ _state c = _EXHAUSTED
       ∧ aclose_calls (_aiterator c)
         = aclose_calls it + (if close_attempted it then 1 else 0)
       ∧ warned c
         = ["AsyncIteratorContext is iterated outside of its context"].
Proof.
  intros Ha Hp Hstop. rewrite Nat.add_1_r, drain_init, <- Nat.add_1_r.
  rewrite drain_app, (drain_yields items it rest) by done.
  simpl. rewrite (__anext___stop (set_pulls rest it) rest) by done.
  eexists. split; [done|]. simpl.
  rewrite set_pulls_set_pulls.
  by destruct (closed_set_pulls (tail rest) it) as [-> _].
Qed.

Lemma unsafe_full_iteration_closes_witness :
  let it := async_generator [Yield (VInt 1); Yield (VInt 2)] (Some None) false in
  ∃ c, drain (2 + 1) (init it)
       = ([Return (VInt 1); Return (VInt 2); Raise StopAsyncIteration], c)
       ∧ _state c = _EXHAUSTED
       ∧ aclose_calls (_aiterator c) = 0 + 1
       ∧ warned c
         = ["AsyncIteratorContext is iterated outside of its context"].
Proof.
  intros it.
  exact (unsafe_full_iteration_closes it [VInt 1; VInt 2] []
           eq_refl eq_refl I).
Defined.

(** ** What [aitercontext] returns, and how it fails *)

Lemma aiter_cases aiterable σ :
  aiter aiterable σ
  = (if is_async_iterable (σ !!! aiterable)
     then call_aiter (σ !!! aiterable) aiterable
     else Raise (TypeError ("'" +:+ type_name_of (σ !!! aiterable)
                            +:+ "' object is not async iterable")),
     σ).
Proof.
  unfold aiter, assert_async_iterable.
  by destruct (is_async_iterable _).
Qed.

(** The constructor returns only for an object of the store that is no
    context and has [__anext__]; it then appends the new instance. *)
Lemma __init___returns cls ref σ r σ' :
  __init__ cls ref σ = (Return r, σ') →
  ∃ it, σ !! ref = Some (Plain it) ∧ has_anext it = true
        ∧ r = length σ ∧ σ' = (σ ++ [Instance cls (init it)])%list.
Proof.
  unfold __init__, bind, get, lift, assert_async_iterator.
  destruct (σ !! ref) as [[it|k self]|] eqn:Hl.
  - rewrite (list_lookup_total_correct _ _ _ Hl). simpl.
    destruct (has_anext it) eqn:Ha; simpl; [|done].
    unfold isinstance. rewrite (list_lookup_total_correct _ _ _ Hl).
    unfold modify, ret. intros [= <- <-]. eauto.
  - rewrite (list_lookup_total_correct _ _ _ Hl). simpl.
    by destruct (isinstance _ _ _).
  - rewrite list_lookup_total_alt, Hl. done.
Qed.

Lemma __init___fails cls ref σ :
  fst (__init__ cls ref σ) ≠ Blocked
  ∧ ∀ e σ', __init__ cls ref σ = (Raise e, σ') → σ' = σ ∧ TypeMismatch e.
Proof.
  unfold __init__, bind, get, lift, assert_async_iterator.
  destruct (is_async_iterator (σ !!! ref)); simpl.
  - destruct (isinstance σ ref AsyncIteratorContext_cls); simpl.
    + split; [done|]. intros e σ' [= <- <-]. split; [done|by eexists].
    + destruct (σ !!! ref) as [it|k self]; simpl.
      * split; [done|]. intros e σ' [=].
      * split; [done|]. intros e σ' [= <- <-]. split; [done|by eexists].
  - split; [done|]. intros e σ' [= <- <-]. split; [done|by eexists].
Qed.

(** What a call of [aitercontext] that returns has done. *)
Lemma aitercontext_returns
  (σ σ' : store) (aiterable r : loc) (k : context_class) :
  aitercontext aiterable (ContextClass k) σ = (Return r, σ') →
  (σ' = σ ∧ isinstance σ r k = true)
  ∨ ∃ aiterator it,
      aiter aiterable σ = (Return aiterator, σ)
      ∧ σ !! aiterator = Some (Plain it) ∧ has_anext it = true
      ∧ r = length σ
      ∧ σ' = (σ ++ [Instance k (init it)])%list.
Proof.
  unfold aitercontext. rewrite bind_eq, aiter_cases.
  destruct (is_async_iterable (σ !!! aiterable)) eqn:Hiter; [|done].
  destruct (call_aiter (σ !!! aiterable) aiterable) as [aiterator|e|];
    [|done..].
  rewrite bind_eq. unfold get at 1. cbv beta iota.
  destruct (isinstance σ aiterator k) eqn:Hinst.
  - intros [= <- <-]. by left.
  - intros Hinit. apply __init___returns in Hinit as (it & Hl & Ha & -> & ->).
    right. by exists aiterator, it.
Qed.

Lemma isinstance_new σ k self cls :
  cls `suffix_of` k →
  isinstance (σ ++ [Instance k self]) (length σ) cls = true.
Proof.
  intros Hsub. unfold isinstance.
  rewrite (list_lookup_total_correct _ (length σ) (Instance k self)).
  - by apply bool_decide_eq_true.
  - rewrite lookup_app_r by done. by rewrite Nat.sub_diag.
Qed.

(** X11: whatever [aitercontext] returns is an instance of the class it
    was given, which is a class of contexts.  It is either an object that
    was there before, and then the store is untouched, or a new context
    of exactly that class, in state [_STANDBY], at a fresh reference,
    around the iterator of the argument, which is no context and has
    [__anext__]; the objects that were there before are never changed. *)
Theorem aitercontext_returns_instance
  (σ σ' : store) (aiterable r : loc) (cls : pyclass) :
  aitercontext aiterable cls σ = (Return r, σ') →
  ∃ k, cls = ContextClass k
       ∧ isinstance σ' r k = true
       ∧ (σ' = σ
          ∨ ∃ aiterator it,
              aiter aiterable σ = (Return aiterator, σ)
              ∧ σ !! aiterator = Some (Plain it) ∧ has_anext it = true
              ∧ r = length σ
              ∧ σ' = (σ ++ [Instance k (init it)])%list).
Proof.
  destruct cls as [k|name]; [|done]. intros Hwrap. exists k. split; [done|].
  destruct (aitercontext_returns _ _ _ _ _ Hwrap)
    as [[-> Hinst]|(aiterator & it & Haiter & Hl & Ha & -> & ->)].
  - split; [done|by left].
  - split; [by apply isinstance_new|].
    right. by exists aiterator, it.
Qed.

(** An async generator is wrapped; the new context is wrapped no further. *)
Lemma aitercontext_returns_instance_witness :
  let it := async_generator [Yield (VInt 1)] (Some None) false in
  let σ := [Plain it] in
  let σ' := [Plain it; Instance ["streamcontext"] (init it)] in
  ∃ k, ContextClass ["streamcontext"] = ContextClass k
       ∧ isinstance σ' 1 k = true
       ∧ (σ' = σ
          ∨ ∃ aiterator it',
              aiter 0 σ = (Return aiterator, σ)
              ∧ σ !! aiterator = Some (Plain it') ∧ has_anext it' = true
              ∧ 1 = length σ
              ∧ σ' = (σ ++ [Instance k (init it')])%list).
Proof.
  intros it σ σ'.
  exact (aitercontext_returns_instance σ σ' 0 1
           (ContextClass ["streamcontext"]) eq_refl).
Defined.

(** X12: when [aitercontext] does not return a context it raises, and
    leaves the store as it was; it never waits.  The error is an
    [AssertionError] when the class is no class of contexts.  For a class
    of contexts (that keeps the constructor of [AsyncIteratorContext]) it
    is the error that the call of [__aiter__] raised, or else the
    [TypeError] of one of the guards. *)
Theorem aitercontext_fails_cleanly
  (σ σ' : store) (aiterable : loc) (cls : pyclass) (res : result loc) :
  aitercontext aiterable cls σ = (res, σ') →
  (∀ r, res ≠ Return r) →
  σ' = σ
  ∧ ∃ e, res = Raise e
         ∧ match cls with
           | OtherClass _ => e = AssertionError
           | ContextClass _ =>
               (is_async_iterable (σ !!! aiterable) = true
                ∧ call_aiter (σ !!! aiterable) aiterable = Raise e)
               ∨ ((∀ e', call_aiter (σ !!! aiterable) aiterable ≠ Raise e')
                  ∧ TypeMismatch e)
           end.
Proof.
  destruct cls as [k|name]; [|intros [= <- <-] _; eauto].
  unfold aitercontext. rewrite bind_eq, aiter_cases.
  destruct (is_async_iterable (σ !!! aiterable)) eqn:Hiter.
  - destruct (call_aiter (σ !!! aiterable) aiterable) as [aiterator|e|] eqn:Hcall.
    + rewrite bind_eq. unfold get at 1. cbv beta iota.
      destruct (isinstance σ _ k).
      { intros [= <- <-] Hres. by destruct (Hres _ eq_refl). }
      intros Hinit Hres.
      destruct (__init___fails k aiterator σ) as [Hnb Hfail].
      rewrite Hinit in Hnb. destruct res as [r|e|].
      * by destruct (Hres r eq_refl).
      * destruct (Hfail _ _ Hinit) as [-> Hty]. split; [done|].
        exists e. split; [done|]. right. by split.
      * done.
    + intros [= <- <-] _. split; [done|]. exists e. split; [done|]. by left.
    + exfalso. revert Hcall. unfold call_aiter.
      by destruct (σ !!! aiterable) as [[? [[]|] ? ? ? ? ?]|].
  - intros [= <- <-] _. split; [done|]. eexists. split; [done|].
    right. split; [|by eexists].
    intros e'. revert Hiter. unfold call_aiter.
    by destruct (σ !!! aiterable) as [[? [[]|] ? ? ? ? ?]|].
Qed.

(** A stream whose [__aiter__] raises; [int] is no class of contexts. *)
Lemma aitercontext_fails_cleanly_witness :
  let stream := {| type_name := "Stream";
                   aiter_method := Some (AiterRaises (UserException "boom"));
                   has_anext := false; pulls := []; aclose := None;
                   ag_running := false; aclose_calls := 0 |} in
  let σ := [Plain stream] in
  (σ = σ
   ∧ ∃ e, @Raise loc (UserException "boom") = Raise e
          ∧ ((is_async_iterable (σ !!! 0) = true
              ∧ call_aiter (σ !!! 0) 0 = Raise e)
             ∨ ((∀ e', call_aiter (σ !!! 0) 0 ≠ Raise e') ∧ TypeMismatch e)))
  ∧ (σ = σ ∧ ∃ e, @Raise loc AssertionError = Raise e ∧ e = AssertionError).
Proof.
  intros stream σ. split.
  - apply (aitercontext_fails_cleanly σ σ 0
             (ContextClass AsyncIteratorContext_cls)
             (Raise (UserException "boom")));
      [reflexivity|discriminate].
  - apply (aitercontext_fails_cleanly σ σ 0 (OtherClass "int")
             (Raise AssertionError)); [reflexivity|discriminate].
Defined.

(** X13: an object without [__aiter__] is refused by [aiter], and so by
    [aitercontext] for every class of contexts, with the [TypeError] that
    names the type of the object; the store is left as it was, no context
    is constructed. *)
Theorem aitercontext_of_non_iterable
  (σ : store) (aiterable : loc) (k : context_class) :
  is_async_iterable (σ !!! aiterable) = false →
  aiter aiterable σ
  = (Raise (TypeError ("'" +:+ type_name_of (σ !!! aiterable)
                       +:+ "' object is not async iterable")), σ)
  ∧ aitercontext aiterable (ContextClass k) σ
    = (Raise (TypeError ("'" +:+ type_name_of (σ !!! aiterable)
                         +:+ "' object is not async iterable")), σ).
Proof.
  intros Hiter. unfold aitercontext. rewrite bind_eq, aiter_cases, Hiter. done.
Qed.

(** An async iterator that has [__anext__] but no [__aiter__]. *)
Lemma aitercontext_of_non_iterable_witness :
  let it := {| type_name := "Countdown"; aiter_method := None;
               has_anext := true; pulls := [Yield (VInt 1)]; aclose := None;
               ag_running := false; aclose_calls := 0 |} in
  aiter 0 [Plain it]
  = (Raise (TypeError "'Countdown' object is not async iterable"), [Plain it])
  ∧ aitercontext 0 (ContextClass AsyncIteratorContext_cls) [Plain it]
    = (Raise (TypeError "'Countdown' object is not async iterable"), [Plain it]).
Proof.
  intros it.
  exact (aitercontext_of_non_iterable [Plain it] 0 AsyncIteratorContext_cls
           eq_refl).
Defined.

(** X14: what [aitercontext] returns is its own iterator: [aiter] on the
    returned context gives the very same reference (its [__aiter__]
    returns [self]) and leaves the store alone, whatever the class of the
    context, so that iterating the result iterates that context. *)
Theorem aitercontext_result_is_its_own_iterator
  (σ σ' : store) (aiterable r : loc) (cls : pyclass) :
  aitercontext aiterable cls σ = (Return r, σ') →
  aiter r σ' = (Return r, σ')
  ∧ is_async_iterable (σ' !!! r) = true
  ∧ is_async_iterator (σ' !!! r) = true
  ∧ isinstance σ' r AsyncIteratorContext_cls = true.
Proof.
  destruct cls as [k|name]; [|done]. intros Hwrap.
  assert (isinstance σ' r k = true) as Hinst.
  { destruct (aitercontext_returns _ _ _ _ _ Hwrap)
      as [[-> Hinst]|(aiterator & it & _ & _ & _ & -> & ->)]; [done|].
    by apply isinstance_new. }
  unfold isinstance in *. rewrite aiter_cases.
  destruct (σ' !!! r) as [it|k' self]; [done|].
  repeat split; try done.
Qed.

Lemma aitercontext_result_is_its_own_iterator_witness :
  let it := async_generator [Yield (VInt 1)] (Some None) false in
  let σ' := [Plain it; Instance ["streamcontext"] (init it)] in
  aiter 1 σ' = (Return 1, σ')
  ∧ is_async_iterable (σ' !!! 1) = true
  ∧ is_async_iterator (σ' !!! 1) = true
  ∧ isinstance σ' 1 AsyncIteratorContext_cls = true.
Proof.
  intros it σ'.
  exact (aitercontext_result_is_its_own_iterator [Plain it] σ' 0 1
           (ContextClass ["streamcontext"]) eq_refl).
Defined.
